(** * CodingBaby-Browser-MCP: the command/response coordination layer

    A shallow embedding of the coordination code of the repository:
    the correlated channel of [Browser-MCP/chrome-client.js], the tab
    lifecycle coordinator of the extension's tab service, the stability
    detector [waitTillHTMLStable], the debugger session manager of
    [services/debuggerService.js], the per-tab debug state cache of the
    tab service, the click path of [services/interactionService.js] and
    the batch executor of [handlers/batchCommandHandler.js].

    JavaScript's single-threaded event loop is modelled by explicit state
    passing: every callback (a delivered message, a timer, a host promise
    that settles) is a function from state to state, and a run of the
    program is a list of such events applied in order. *)

From stdpp Require Import base decidable option list strings pretty gmap.
From Stdlib Require Import ZArith Lia Ascii String.

Local Open Scope string_scope.
Local Open Scope Z_scope.
Local Open Scope list_scope.

(** ** JavaScript conventions shared by the modules *)

(** Truthiness of an optional string field: [undefined] and the empty
    string are falsy. *)
Definition truthy (o : option string) : bool :=
  match o with
  | Some s => negb (String.eqb s "")
  | None => false
  end.

(** [a || b] on optional strings. *)
Definition js_or (a b : option string) : option string :=
  if truthy a then a else b.

(** [o === "lit"] for a field that may be absent. *)
Definition is_str (o : option string) (lit : string) : bool :=
  match o with
  | Some s => String.eqb s lit
  | None => false
  end.

(** Truthiness of a tab id: [null], [undefined] and [0] are falsy. *)
Definition truthy_id (o : option Z) : bool :=
  match o with
  | Some n => negb (n =? 0)
  | None => false
  end.

(** * The correlated channel ([Browser-MCP/chrome-client.js]) *)
Module Channel.

Record viewport := { width : Z; height : Z }.

(** A message parsed from the socket.  Absent fields are [None].  The
    fields that are only copied into the response ([logs], [tabs],
    [htmlContent], [viewportSize], [analysisResult],
    [currentMousePosition], [newTabUrl]) are left out. *)
Record message := {
  requestId : option string;
  status : option string;
  command : option string;
  m_viewport : option viewport;
  m_message : option string;
  m_currentUrl : option string;
  m_url : option string;
  m_screenshot : option string;
  m_tabId : option Z;
  m_newTabOpened : bool;
  m_newTabId : option Z
}.

(** The object a pending promise is resolved with. *)
Record response := {
  r_status : string;
  r_message : option string;
  r_screenshot : option string;
  r_currentUrl : option string;
  r_tabId : option Z;
  r_viewport : option viewport;
  r_newTabOpened : option bool;
  r_newTabId : option Z
}.

Inductive outcome :=
| Resolved (r : response)
| Rejected (err : string).

(** An entry of [pendingRequests].  Its [resolve]/[reject] pair and its
    [timeoutId] belong to the promise made for the entry's key, so the
    key identifies them. *)
Record pending := { p_command : string; p_timeoutMs : Z }.

(** What the client does, in the order it does it. *)
Inductive action :=
| Send (id cmd : string)
| ClearTimeout (id : string)
| Delete (id : string)
| Settle (id : string) (o : outcome)
| Clear.

Record client := {
  pendingRequests : list (string * pending);  (* a Map: insertion order *)
  requestIdCounter : N;
  c_viewport : viewport;
  currentUrl : option string;
  socketOpen : bool;
  timers : list string;                        (* armed response timers *)
  log : list action                            (* oldest first *)
}.

Definition DEFAULT_VIEWPORT : viewport := {| width := 800; height := 600 |}.

Definition init : client :=
  {| pendingRequests := []; requestIdCounter := 0%N;
     c_viewport := DEFAULT_VIEWPORT; currentUrl := None;
     socketOpen := false; timers := []; log := [] |}.

(** *** The Map operations used on [pendingRequests] *)

Fixpoint map_get (k : string) (m : list (string * pending)) : option pending :=
  match m with
  | [] => None
  | (k', v) :: m' => if String.eqb k k' then Some v else map_get k m'
  end.

Fixpoint map_delete (k : string) (m : list (string * pending)) : list (string * pending) :=
  match m with
  | [] => []
  | (k', v) :: m' => if String.eqb k k' then map_delete k m' else (k', v) :: map_delete k m'
  end.

(** [Map.prototype.set]: an existing key keeps its place. *)
Fixpoint map_set (k : string) (v : pending) (m : list (string * pending)) : list (string * pending) :=
  match m with
  | [] => [(k, v)]
  | (k', v') :: m' => if String.eqb k k' then (k, v) :: m' else (k', v') :: map_set k v m'
  end.

Definition map_has (k : string) (m : list (string * pending)) : bool :=
  match map_get k m with Some _ => true | None => false end.

(** The [for ... of entries()] scan of the acknowledgement fallback: the
    first entry, in insertion order, whose command is [cmd]. *)
Fixpoint scan_command (cmd : string) (m : list (string * pending)) : option (string * pending) :=
  match m with
  | [] => None
  | (k, v) :: m' => if String.eqb (p_command v) cmd then Some (k, v) else scan_command cmd m'
  end.

(** The most recently inserted entry whose command is [cmd]. *)
Definition latest_command (cmd : string) (m : list (string * pending)) : option (string * pending) :=
  scan_command cmd (rev m).

(** *** State updates *)

Definition emit (a : list action) (c : client) : client :=
  {| pendingRequests := pendingRequests c; requestIdCounter := requestIdCounter c;
     c_viewport := c_viewport c; currentUrl := currentUrl c;
     socketOpen := socketOpen c; timers := timers c; log := log c ++ a |}.

Definition set_pending (p : list (string * pending)) (c : client) : client :=
  {| pendingRequests := p; requestIdCounter := requestIdCounter c;
     c_viewport := c_viewport c; currentUrl := currentUrl c;
     socketOpen := socketOpen c; timers := timers c; log := log c |}.

Definition set_timers (t : list string) (c : client) : client :=
  {| pendingRequests := pendingRequests c; requestIdCounter := requestIdCounter c;
     c_viewport := c_viewport c; currentUrl := currentUrl c;
     socketOpen := socketOpen c; timers := t; log := log c |}.

Definition set_viewport (v : viewport) (c : client) : client :=
  {| pendingRequests := pendingRequests c; requestIdCounter := requestIdCounter c;
     c_viewport := v; currentUrl := currentUrl c;
     socketOpen := socketOpen c; timers := timers c; log := log c |}.

Definition set_currentUrl (u : option string) (c : client) : client :=
  {| pendingRequests := pendingRequests c; requestIdCounter := requestIdCounter c;
     c_viewport := c_viewport c; currentUrl := u;
     socketOpen := socketOpen c; timers := timers c; log := log c |}.

Definition set_socketOpen (b : bool) (c : client) : client :=
  {| pendingRequests := pendingRequests c; requestIdCounter := requestIdCounter c;
     c_viewport := c_viewport c; currentUrl := currentUrl c;
     socketOpen := b; timers := timers c; log := log c |}.

Definition bump_counter (c : client) : client :=
  {| pendingRequests := pendingRequests c; requestIdCounter := N.succ (requestIdCounter c);
     c_viewport := c_viewport c; currentUrl := currentUrl c;
     socketOpen := socketOpen c; timers := timers c; log := log c |}.

Definition remove_timer (id : string) (t : list string) : list string :=
  filter (fun x => x ≠ id) t.

(** [clearTimeout(req.timeoutId)]; [pendingRequests.delete(id)]; then the
    entry's continuation is called with [o]. *)
Definition take_and_settle (id : string) (o : outcome) (c : client) : client :=
  let c1 := emit [ClearTimeout id] (set_timers (remove_timer id (timers c)) c) in
  let c2 := emit [Delete id] (set_pending (map_delete id (pendingRequests c1)) c1) in
  emit [Settle id o] c2.

(** *** [handleMessageFromClient] *)

Definition ack_response (c : client) : response :=
  {| r_status := "success"; r_message := Some "Viewport configuration applied";
     r_screenshot := None; r_currentUrl := None; r_tabId := None;
     r_viewport := Some (c_viewport c); r_newTabOpened := None; r_newTabId := None |}.

Definition success_response (m : message) : response :=
  {| r_status := "success"; r_message := m_message m;
     r_screenshot := m_screenshot m;
     r_currentUrl := js_or (m_currentUrl m) (m_url m);
     r_tabId := m_tabId m; r_viewport := None;
     r_newTabOpened := if m_newTabOpened m then Some true else None;
     r_newTabId := if truthy_id (m_newTabId m) then m_newTabId m else None |}.

Definition update_url (m : message) (c : client) : client :=
  if truthy (m_currentUrl m) then set_currentUrl (m_currentUrl m) c
  else if truthy (m_url m) then set_currentUrl (m_url m) c
  else c.

Definition failure_text (m : message) (p : pending) : string :=
  match js_or (m_message m) None with
  | Some s => s
  | None => "Command '" +:+ p_command p +:+ "' failed."
  end.

Definition unhandled_text (m : message) (p : pending) : string :=
  "Received unhandled status '" +:+ default "undefined" (status m)
    +:+ "' for command '" +:+ p_command p +:+ "'.".

Definition handleMessageFromClient (m : message) (c : client) : client :=
  if is_str (command m) "viewportSync" && bool_decide (is_Some (m_viewport m)) then
    match m_viewport m with
    | Some v => set_viewport v c
    | None => c
    end
  else if negb (truthy (requestId m)) && is_str (command m) "setViewportConfig"
          && is_str (status m) "ack" then
    match scan_command "setViewportConfig" (pendingRequests c) with
    | Some (reqId, _) => take_and_settle reqId (Resolved (ack_response c)) c
    | None => c
    end
  else if negb (truthy (requestId m)) then c
  else
    match requestId m with
    | None => c
    | Some id =>
      match map_get id (pendingRequests c) with
      | None => c
      | Some p =>
        if is_str (status m) "error" then
          take_and_settle id (Rejected (failure_text m p)) c
        else if is_str (status m) "ack" || is_str (status m) "success" then
          let c1 := emit [ClearTimeout id] (set_timers (remove_timer id (timers c)) c) in
          let c2 := emit [Delete id] (set_pending (map_delete id (pendingRequests c1)) c1) in
          emit [Settle id (Resolved (success_response m))] (update_url m c2)
        else
          take_and_settle id (Rejected (unhandled_text m p)) c
      end
    end.

(** *** [sendMessageToClient] and [waitForResponse] *)

Definition request_name (n : N) : string := "req-" +:+ pretty n.

(** Returns [None] when it throws (client not connected); the counter is
    advanced before the connection is checked. *)
Definition sendMessageToClient (cmd : string) (c : client) : client * option string :=
  let id := request_name (requestIdCounter c) in
  let c1 := bump_counter c in
  if socketOpen c then (emit [Send id cmd] c1, Some id) else (c1, None).

Definition waitForResponse (id cmd : string) (timeoutMs : Z) (c : client) : client :=
  let c1 := set_timers (timers c ++ [id]) c in
  set_pending (map_set id {| p_command := cmd; p_timeoutMs := timeoutMs |} (pendingRequests c1)) c1.

(** The response timer of [waitForResponse] firing. *)
Definition timeout_text (id cmd : string) : string :=
  "Timeout waiting for response for command " +:+ cmd +:+ " (ID: " +:+ id +:+ ")".

Definition fireTimeout (id : string) (c : client) : client :=
  if bool_decide (id ∈ timers c) then
    let c1 := set_timers (remove_timer id (timers c)) c in
    match map_get id (pendingRequests c1) with
    | Some p =>
      let c2 := emit [Settle id (Rejected (timeout_text id (p_command p)))] c1 in
      emit [Delete id] (set_pending (map_delete id (pendingRequests c2)) c2)
    | None => c1
    end
  else c.

(** The socket's [close] and [error] handlers: every pending entry is
    rejected, in insertion order, and the map is cleared. *)
Definition reject_all (err : string) (c : client) : client :=
  let c1 := set_socketOpen false c in
  let c2 := emit (map (fun kv => Settle (fst kv) (Rejected err)) (pendingRequests c1)) c1 in
  emit [Clear] (set_pending [] c2).

(** [dispose], when there is a server or a socket to close: the timers
    of the pending entries are cleared as the entries are rejected. *)
Definition dispose (c : client) : client :=
  let c1 := set_timers (filter (λ id, id ∉ map fst (pendingRequests c)) (timers c)) c in
  reject_all "Client disposed." c1.

(** The reset at the start of [startWebSocketServer]: the map is cleared
    and no continuation is called. *)
Definition restart (c : client) : client :=
  emit [Clear] (set_pending [] (set_socketOpen false c)).

(** How every command method of the client issues a request: send, then
    wait on the id that was returned. *)
Definition request (cmd : string) (timeoutMs : Z) (c : client) : client :=
  match sendMessageToClient cmd c with
  | (c1, Some id) => waitForResponse id cmd timeoutMs c1
  | (c1, None) => c1
  end.

Inductive event :=
| EvConnect
| EvRequest (cmd : string) (timeoutMs : Z)
| EvMessage (m : message)
| EvTimeout (id : string)
| EvClose
| EvError (msg : string)
| EvDispose
| EvRestart.

(** The [close] and [error] handlers act only for the socket that is the
    client's current one. *)
Definition step (c : client) (e : event) : client :=
  match e with
  | EvConnect => set_socketOpen true c
  | EvRequest cmd t => request cmd t c
  | EvMessage m => handleMessageFromClient m c
  | EvTimeout id => fireTimeout id c
  | EvClose =>
    if socketOpen c then reject_all "Chrome extension client disconnected." c else c
  | EvError msg =>
    if socketOpen c then reject_all ("Client WebSocket error: " +:+ msg) c else c
  | EvDispose => dispose c
  | EvRestart => restart c
  end.

Definition run (evs : list event) : client := fold_left step evs init.

(** The ids whose continuation has been called, one per call. *)
Definition settled_ids (l : list action) : list string :=
  omap (fun a => match a with Settle id _ => Some id | _ => None end) l.

Definition keys (m : list (string * pending)) : list string := map fst m.

(** *** Facts about the Map operations *)

Lemma map_get_None (k : string) (m : list (string * pending)) :
  map_get k m = None ↔ k ∉ keys m.
Proof.
  induction m as [|[k' v] m IH]; simpl.
  - split; [intros _; apply not_elem_of_nil | done].
  - destruct (String.eqb k k') eqn:E.
    + apply String.eqb_eq in E as ->. split; [done | intros H; destruct H; left].
    + apply String.eqb_neq in E. rewrite not_elem_of_cons. tauto.
Qed.

Lemma map_get_Some_keys (k : string) (m : list (string * pending)) (v : pending) :
  map_get k m = Some v → k ∈ keys m.
Proof.
  intros H. destruct (decide (k ∈ keys m)) as [|Hn]; [done|].
  apply map_get_None in Hn. congruence.
Qed.

Lemma keys_map_delete (k : string) (m : list (string * pending)) :
  keys (map_delete k m) = filter (λ x, x ≠ k) (keys m).
Proof.
  induction m as [|[k' v] m IH]; simpl; [done|].
  destruct (String.eqb k k') eqn:E.
  - apply String.eqb_eq in E as ->. rewrite filter_cons_False by tauto. exact IH.
  - apply String.eqb_neq in E. rewrite filter_cons_True by congruence.
    simpl. by rewrite IH.
Qed.

Lemma keys_map_set_fresh (k : string) (v : pending) (m : list (string * pending)) :
  k ∉ keys m → keys (map_set k v m) = keys m ++ [k].
Proof.
  induction m as [|[k' v'] m IH]; simpl; [done|].
  rewrite not_elem_of_cons. intros [Hne Hn].
  apply String.eqb_neq in Hne. rewrite Hne. simpl. by rewrite IH.
Qed.

Lemma scan_command_keys (cmd k : string) (v : pending) (m : list (string * pending)) :
  scan_command cmd m = Some (k, v) → k ∈ keys m.
Proof.
  induction m as [|[k' v'] m IH]; simpl; [done|].
  destruct (String.eqb (p_command v') cmd).
  - intros [= -> ->]. left.
  - intros H. right. by apply IH.
Qed.

Lemma settled_ids_app (l1 l2 : list action) :
  settled_ids (l1 ++ l2) = settled_ids l1 ++ settled_ids l2.
Proof. apply omap_app. Qed.

Lemma settled_ids_reject_all (err : string) (m : list (string * pending)) :
  settled_ids (map (λ kv, Settle (fst kv) (Rejected err)) m) = keys m.
Proof. induction m as [|[k v] m IH]; [done|]. cbn. f_equal. exact IH. Qed.

Lemma request_name_inj (a b : N) : request_name a = request_name b → a = b.
Proof. unfold request_name. simpl. intros [= H]. by apply (inj pretty). Qed.

(** *** The invariant of the pending map and of the settlement log *)

Definition issued (c : client) (id : string) : Prop :=
  ∃ k, (k < requestIdCounter c)%N ∧ id = request_name k.

Record Inv (c : client) : Prop := {
  inv_pending_nodup : NoDup (keys (pendingRequests c));
  inv_pending_issued : ∀ id, id ∈ keys (pendingRequests c) → issued c id;
  inv_settled_nodup : NoDup (settled_ids (log c));
  inv_settled_issued : ∀ id, id ∈ settled_ids (log c) → issued c id;
  inv_settled_gone : ∀ id, id ∈ settled_ids (log c) → id ∉ keys (pendingRequests c)
}.

Lemma Inv_init : Inv init.
Proof. split; simpl; try apply NoDup_nil_2; intros id H; by apply elem_of_nil in H. Qed.

(** Taking one pending entry out and calling its continuation once. *)
Lemma Inv_take (id : string) (c c' : client) :
  Inv c →
  id ∈ keys (pendingRequests c) →
  pendingRequests c' = map_delete id (pendingRequests c) →
  requestIdCounter c' = requestIdCounter c →
  settled_ids (log c') = settled_ids (log c) ++ [id] →
  Inv c'.
Proof.
  intros [H1 H2 H3 H4 H5] Hin Hp Hc Hl.
  split; unfold issued in *; rewrite ?Hp, ?Hc, ?Hl, ?keys_map_delete.
  - by apply NoDup_filter.
  - intros x Hx. apply list_elem_of_filter in Hx as [_ Hx]. by apply H2.
  - apply NoDup_app. split; [done|]. split; [|apply NoDup_singleton].
    intros x Hx Hx'. apply list_elem_of_singleton in Hx' as ->. by apply (H5 id).
  - intros x Hx. apply elem_of_app in Hx as [Hx|Hx]; [by apply H4|].
    apply list_elem_of_singleton in Hx as ->. by apply H2.
  - intros x Hx Hf. apply list_elem_of_filter in Hf as [Hne Hf].
    apply elem_of_app in Hx as [Hx|Hx]; [by apply (H5 x)|].
    by apply list_elem_of_singleton in Hx.
Qed.

(** A step that leaves the pending map, the counter and the settlement
    log alone. *)
Lemma Inv_same (c c' : client) :
  Inv c →
  pendingRequests c' = pendingRequests c →
  requestIdCounter c' = requestIdCounter c →
  settled_ids (log c') = settled_ids (log c) →
  Inv c'.
Proof.
  intros [H1 H2 H3 H4 H5] Hp Hc Hl.
  split; unfold issued in *; rewrite ?Hp, ?Hc, ?Hl; done.
Qed.

Lemma Inv_handleMessage (m : message) (c : client) :
  Inv c → Inv (handleMessageFromClient m c).
Proof.
  intros HI. unfold handleMessageFromClient.
  destruct (is_str (command m) "viewportSync" && _).
  { destruct (m_viewport m); [|done]. by apply (Inv_same c). }
  destruct (negb (truthy (requestId m)) && _ && _).
  { destruct (scan_command _ _) as [[reqId p]|] eqn:E; [|done].
    apply scan_command_keys in E.
    apply (Inv_take reqId c); try done.
    simpl. rewrite !settled_ids_app. simpl. by rewrite !app_nil_r. }
  destruct (negb (truthy (requestId m))); [done|].
  destruct (requestId m) as [id|]; [|done].
  destruct (map_get id _) as [p|] eqn:E; [|done].
  apply map_get_Some_keys in E.
  destruct (is_str (status m) "error"); [|destruct (_ || _)];
    apply (Inv_take id c); try done;
    try (simpl; rewrite !settled_ids_app; simpl; by rewrite !app_nil_r).
  - unfold update_url. by repeat case_match.
  - unfold update_url. by repeat case_match.
  - unfold update_url. repeat case_match; simpl;
      rewrite !settled_ids_app; simpl; by rewrite !app_nil_r.
Qed.

Lemma Inv_fireTimeout (id : string) (c : client) :
  Inv c → Inv (fireTimeout id c).
Proof.
  intros HI. unfold fireTimeout. case_bool_decide; [|done]. simpl.
  destruct (map_get id _) as [p|] eqn:E.
  - apply map_get_Some_keys in E. apply (Inv_take id c); try done.
    simpl. rewrite !settled_ids_app. simpl. by rewrite !app_nil_r.
  - by apply (Inv_same c).
Qed.

Lemma Inv_reject_all (err : string) (c : client) :
  Inv c → Inv (reject_all err c).
Proof.
  intros [H1 H2 H3 H4 H5]. unfold reject_all.
  split; unfold issued; simpl;
    rewrite ?settled_ids_app, ?settled_ids_reject_all; simpl; rewrite ?app_nil_r.
  - apply NoDup_nil_2.
  - intros id H. by apply elem_of_nil in H.
  - apply NoDup_app. split; [done|]. split; [|done].
    intros x Hx. by apply H5.
  - intros x Hx. apply elem_of_app in Hx as [Hx|Hx]; [by apply H4 | by apply H2].
  - intros x _. apply not_elem_of_nil.
Qed.

Lemma issued_fresh (c : client) :
  Inv c → (request_name (requestIdCounter c) ∉ keys (pendingRequests c))
        ∧ (request_name (requestIdCounter c) ∉ settled_ids (log c)).
Proof.
  intros [H1 H2 H3 H4 H5].
  split; intros H; [apply H2 in H | apply H4 in H];
    destruct H as (k & Hk & E); apply request_name_inj in E; lia.
Qed.

Lemma Inv_request (cmd : string) (t : Z) (c : client) :
  Inv c → Inv (request cmd t c).
Proof.
  intros HI. destruct (issued_fresh c HI) as [Hf1 Hf2].
  destruct HI as [H1 H2 H3 H4 H5].
  assert (Hmono : ∀ id, issued c id → issued (bump_counter c) id).
  { intros id (k & Hk & ->). exists k. simpl. split; [lia | done]. }
  unfold request, sendMessageToClient. destruct (socketOpen c).
  - split; unfold issued; simpl; rewrite ?keys_map_set_fresh by done;
      rewrite ?settled_ids_app; simpl; rewrite ?app_nil_r.
    + apply NoDup_app. split; [done|]. split; [|apply NoDup_singleton].
      intros x Hx Hx'. by apply list_elem_of_singleton in Hx' as ->.
    + intros x Hx. apply elem_of_app in Hx as [Hx|Hx]; [by apply Hmono, H2|].
      apply list_elem_of_singleton in Hx as ->.
      exists (requestIdCounter c). split; [lia | done].
    + done.
    + intros x Hx. by apply Hmono, H4.
    + intros x Hx Hk. apply elem_of_app in Hk as [Hk|Hk]; [by apply (H5 x)|].
      by apply list_elem_of_singleton in Hk as ->.
  - split; simpl; try done; intros x Hx; apply Hmono; auto.
Qed.

Lemma Inv_step (c : client) (e : event) : Inv c → Inv (step c e).
Proof.
  intros HI. destruct e; simpl.
  - by apply (Inv_same c).
  - by apply Inv_request.
  - by apply Inv_handleMessage.
  - by apply Inv_fireTimeout.
  - destruct (socketOpen c); [by apply Inv_reject_all | done].
  - destruct (socketOpen c); [by apply Inv_reject_all | done].
  - apply Inv_reject_all. by apply (Inv_same c).
  - destruct HI as [H1 H2 H3 H4 H5].
    split; unfold issued; simpl; rewrite ?settled_ids_app; simpl; rewrite ?app_nil_r;
      try done; [apply NoDup_nil_2 | intros x Hx; by apply elem_of_nil in Hx
                | intros x _; apply not_elem_of_nil].
Qed.

Lemma Inv_run (evs : list event) : Inv (run evs).
Proof.
  unfold run. generalize Inv_init. generalize init.
  induction evs as [|e evs IH]; intros c HI; simpl; [done|].
  by apply IH, Inv_step.
Qed.

Lemma map_get_delete_eq (k : string) (m : list (string * pending)) :
  map_get k (map_delete k m) = None.
Proof.
  apply map_get_None. rewrite keys_map_delete.
  intros H. apply list_elem_of_filter in H as [H _]. by apply H.
Qed.

(** What one delivered message adds to the action log: nothing, or the
    three actions clear-timer, delete, settle, in that order. *)
Lemma handleMessage_log (m : message) (c : client) :
  ∃ new, log (handleMessageFromClient m c) = log c ++ new ∧
    (new = [] ∨ ∃ id o, new = [ClearTimeout id; Delete id; Settle id o] ∧
       map_get id (pendingRequests (handleMessageFromClient m c)) = None).
Proof.
  assert (Hnil : ∃ new, log c = log c ++ new ∧
    (new = [] ∨ ∃ id o, new = [ClearTimeout id; Delete id; Settle id o] ∧
       map_get id (pendingRequests c) = None)).
  { exists []. split; [by rewrite app_nil_r | by left]. }
  unfold handleMessageFromClient.
  destruct (is_str (command m) "viewportSync" && _).
  { destruct (m_viewport m); exact Hnil. }
  destruct (negb (truthy (requestId m)) && _ && _).
  { destruct (scan_command _ _) as [[reqId p]|]; [|exact Hnil].
    eexists. split; [simpl; by rewrite <- !app_assoc|].
    right. eexists _, _. split; [done|]. simpl. apply map_get_delete_eq. }
  destruct (negb (truthy (requestId m))); [exact Hnil|].
  destruct (requestId m) as [id|]; [|exact Hnil].
  destruct (map_get id _) as [p|]; [|exact Hnil].
  destruct (is_str (status m) "error"); [|destruct (_ || _)].
  - eexists. split; [simpl; by rewrite <- !app_assoc|].
    right. eexists _, _. split; [done|]. simpl. apply map_get_delete_eq.
  - eexists. split.
    + unfold update_url. repeat case_match; simpl; by rewrite <- !app_assoc.
    + right. eexists _, _. split; [done|].
      unfold update_url. repeat case_match; simpl; apply map_get_delete_eq.
  - eexists. split; [simpl; by rewrite <- !app_assoc|].
    right. eexists _, _. split; [done|]. simpl. apply map_get_delete_eq.
Qed.

(** A message that carries a request id with no pending entry, and is not
    a viewport synchronisation, is dropped. *)
Lemma handleMessage_dropped (m : message) (c : client) (id : string) :
  requestId m = Some id → id ≠ "" →
  map_get id (pendingRequests c) = None →
  is_str (command m) "viewportSync" && bool_decide (is_Some (m_viewport m)) = false →
  handleMessageFromClient m c = c.
Proof.
  intros Hid Hne Hget Hsync. unfold handleMessageFromClient.
  rewrite Hsync, Hid. simpl.
  apply String.eqb_neq in Hne. rewrite Hne. simpl. by rewrite Hget.
Qed.

Definition ok_reply : message :=
  {| requestId := Some "req-0"; status := Some "success"; command := Some "click";
     m_viewport := None; m_message := None; m_currentUrl := None; m_url := None;
     m_screenshot := None; m_tabId := None; m_newTabOpened := false; m_newTabId := None |}.

Definition late_sync : message :=
  {| requestId := Some "req-0"; status := None; command := Some "viewportSync";
     m_viewport := Some {| width := 1; height := 1 |};
     m_message := None; m_currentUrl := None; m_url := None;
     m_screenshot := None; m_tabId := None; m_newTabOpened := false; m_newTabId := None |}.

Definition settled_run : list event :=
  [EvConnect; EvRequest "click" 60000; EvMessage ok_reply].

Definition bare_ack : message :=
  {| requestId := None; status := Some "ack"; command := Some "setViewportConfig";
     m_viewport := None; m_message := None; m_currentUrl := None; m_url := None;
     m_screenshot := None; m_tabId := None; m_newTabOpened := false; m_newTabId := None |}.

Definition two_pending : client :=
  run [EvConnect; EvRequest "setViewportConfig" 60000; EvRequest "setViewportConfig" 60000].

(** C1, counterexample.  Request [req-0] has been answered and its entry
    is gone; a later message that carries the same [requestId] together
    with [command: "viewportSync"] and a viewport is not dropped: it
    replaces the client's viewport. *)
Lemma C1_late_sync_changes_client :
  settled_ids (log (run settled_run)) = ["req-0"] ∧
  map_get "req-0" (pendingRequests (run settled_run)) = None ∧
  requestId late_sync = Some "req-0" ∧
  c_viewport (run settled_run) = DEFAULT_VIEWPORT ∧
  c_viewport (handleMessageFromClient late_sync (run settled_run))
    = {| width := 1; height := 1 |}.
Proof. vm_compute. repeat split. Qed.

(** C1, as amended.  In every run of the client (requests, delivered
    messages, response timers, socket close and error, in any order) the
    continuation of each request id is called at most once, and an id
    whose continuation was called has no pending entry; a delivered
    message adds to the action log either nothing or clear-timer, delete,
    settle in this order, the entry being gone when the continuation is
    called; and a message carrying a non-empty request id that has no
    pending entry leaves the whole client unchanged, unless it is a
    [viewportSync] message with a viewport. *)
Theorem C1_settled_at_most_once (evs : list event) (m : message) :
  let c := run evs in
  NoDup (settled_ids (log c))
  ∧ (∀ id, id ∈ settled_ids (log c) → map_get id (pendingRequests c) = None)
  ∧ (∃ new, log (handleMessageFromClient m c) = log c ++ new ∧
       (new = [] ∨ ∃ id o, new = [ClearTimeout id; Delete id; Settle id o] ∧
          map_get id (pendingRequests (handleMessageFromClient m c)) = None))
  ∧ (∀ id, requestId m = Some id → id ≠ "" →
       map_get id (pendingRequests c) = None →
       is_str (command m) "viewportSync" && bool_decide (is_Some (m_viewport m)) = false →
       handleMessageFromClient m c = c).
Proof.
  intros c. pose proof (Inv_run evs) as HI. fold c in HI.
  split; [apply HI|]. split.
  { intros id Hid. apply map_get_None. by apply HI. }
  split; [apply handleMessage_log|].
  intros id. apply handleMessage_dropped.
Qed.

(** C1, witness: the answered request [req-0] of [settled_run] and a
    second delivery of the same reply. *)
Lemma C1_settled_at_most_once_witness :
  handleMessageFromClient ok_reply (run settled_run) = run settled_run.
Proof.
  destruct (C1_settled_at_most_once settled_run ok_reply) as (_ & _ & _ & H).
  apply (H "req-0"); [reflexivity | discriminate | reflexivity | reflexivity].
Defined.

(** C9, the code at the failing input.  With [req-0] and [req-1] both
    pending for [setViewportConfig], an acknowledgement without a request
    id settles [req-0], the oldest entry, and leaves [req-1], the most
    recent one, pending. *)
Theorem C9_bare_ack_settles_oldest :
  keys (pendingRequests two_pending) = ["req-0"; "req-1"] ∧
  fst <$> latest_command "setViewportConfig" (pendingRequests two_pending) = Some "req-1" ∧
  settled_ids (log (handleMessageFromClient bare_ack two_pending)) = ["req-0"] ∧
  keys (pendingRequests (handleMessageFromClient bare_ack two_pending)) = ["req-1"].
Proof. vm_compute. repeat split. Qed.

(** ** Further facts about the channel *)

Lemma map_get_delete_ne (k k' : string) (m : list (string * pending)) :
  k ≠ k' → map_get k' (map_delete k m) = map_get k' m.
Proof.
  intros Hne. induction m as [|[x v] m IH]; simpl; [done|].
  destruct (String.eqb_spec k x) as [->|Hkx].
  - rewrite IH. destruct (String.eqb_spec k' x); [congruence | done].
  - simpl. by rewrite IH.
Qed.

Lemma map_delete_fresh (k : string) (m : list (string * pending)) :
  k ∉ keys m → map_delete k m = m.
Proof.
  induction m as [|[x v] m IH]; simpl; [done|].
  rewrite not_elem_of_cons. intros [Hne Hn].
  apply String.eqb_neq in Hne. rewrite Hne. by rewrite IH.
Qed.

Lemma map_delete_set_fresh (k : string) (v : pending) (m : list (string * pending)) :
  k ∉ keys m → map_delete k (map_set k v m) = m.
Proof.
  induction m as [|[x w] m IH]; simpl.
  - intros _. by rewrite String.eqb_refl.
  - rewrite not_elem_of_cons. intros [Hne Hn].
    apply String.eqb_neq in Hne. rewrite Hne. simpl. rewrite Hne. by rewrite IH.
Qed.

Lemma map_get_set_eq (k : string) (v : pending) (m : list (string * pending)) :
  map_get k (map_set k v m) = Some v.
Proof.
  induction m as [|[x w] m IH]; simpl.
  - by rewrite String.eqb_refl.
  - destruct (String.eqb k x) eqn:E; simpl; [by rewrite String.eqb_refl | by rewrite E].
Qed.

Lemma remove_timer_fresh (id : string) (t : list string) :
  id ∉ t → remove_timer id (t ++ [id]) = t.
Proof.
  intros Hn. unfold remove_timer. rewrite filter_app, filter_cons_False by tauto.
  rewrite filter_nil, app_nil_r.
  induction t as [|x t IH]; [done|].
  apply not_elem_of_cons in Hn as [Hne Hn].
  rewrite filter_cons_True by congruence. by rewrite IH.
Qed.

(** Every pending entry has its response timer armed, and timers belong
    to issued requests. *)
Record TimerInv (c : client) : Prop := {
  pending_timed : ∀ id, id ∈ keys (pendingRequests c) → id ∈ timers c;
  timers_issued : ∀ id, id ∈ timers c → issued c id
}.

Lemma TimerInv_take (id : string) (c c' : client) :
  TimerInv c →
  pendingRequests c' = map_delete id (pendingRequests c) →
  timers c' = remove_timer id (timers c) →
  requestIdCounter c' = requestIdCounter c →
  TimerInv c'.
Proof.
  intros [H1 H2] Hp Ht Hc. split; unfold issued; rewrite ?Hp, ?Ht, ?Hc, ?keys_map_delete.
  - intros x Hx. apply list_elem_of_filter in Hx as [Hne Hx].
    apply list_elem_of_filter. split; [done | by apply H1].
  - intros x Hx. apply list_elem_of_filter in Hx as [_ Hx]. by apply H2.
Qed.

Lemma TimerInv_handleMessage (m : message) (c : client) :
  TimerInv c → TimerInv (handleMessageFromClient m c).
Proof.
  intros HT. unfold handleMessageFromClient.
  destruct (is_str (command m) "viewportSync" && _).
  { destruct (m_viewport m); [|done]. destruct HT. by split. }
  destruct (negb (truthy (requestId m)) && _ && _).
  { destruct (scan_command _ _) as [[reqId p]|]; [|done].
    by apply (TimerInv_take reqId c). }
  destruct (negb (truthy (requestId m))); [done|].
  destruct (requestId m) as [id|]; [|done].
  destruct (map_get id _) as [p|]; [|done].
  destruct (is_str (status m) "error"); [|destruct (_ || _)];
    apply (TimerInv_take id c); try done;
    unfold update_url; by repeat case_match.
Qed.

Lemma TimerInv_step (c : client) (e : event) :
  Inv c → TimerInv c → TimerInv (step c e).
Proof.
  intros HI HT. destruct e as [|cmd t|m|id| |msg| |]; simpl.
  - destruct HT. by split.
  - destruct (issued_fresh c HI) as [Hf _]. destruct HT as [H1 H2].
    assert (Hmono : ∀ id, issued c id → issued (bump_counter c) id).
    { intros id (k & Hk & ->). exists k. simpl. split; [lia | done]. }
    unfold request, sendMessageToClient. destruct (socketOpen c).
    + split; unfold issued; simpl; rewrite ?keys_map_set_fresh by done.
      * intros x Hx. apply elem_of_app in Hx as [Hx|Hx];
          apply elem_of_app; [left; by apply H1 | by right].
      * intros x Hx. apply elem_of_app in Hx as [Hx|Hx]; [by apply Hmono, H2|].
        apply list_elem_of_singleton in Hx as ->.
        exists (requestIdCounter c). split; [lia | done].
    + split; simpl; [done|]. intros x Hx. by apply Hmono, H2.
  - by apply TimerInv_handleMessage.
  - unfold fireTimeout. case_bool_decide; [|done]. simpl.
    destruct (map_get id _) as [p|] eqn:E.
    + by apply (TimerInv_take id c).
    + destruct HT as [H1 H2]. apply map_get_None in E. split; simpl.
      * intros x Hx. apply list_elem_of_filter. split; [|by apply H1].
        intros ->. done.
      * intros x Hx. apply list_elem_of_filter in Hx as [_ Hx]. by apply H2.
  - destruct (socketOpen c); [|done]. destruct HT as [H1 H2]. split; simpl; [|done].
    intros x Hx. by apply elem_of_nil in Hx.
  - destruct (socketOpen c); [|done]. destruct HT as [H1 H2]. split; simpl; [|done].
    intros x Hx. by apply elem_of_nil in Hx.
  - destruct HT as [H1 H2]. split; simpl.
    + intros x Hx. by apply elem_of_nil in Hx.
    + intros x Hx. apply list_elem_of_filter in Hx as [_ Hx]. by apply H2.
  - destruct HT as [H1 H2]. split; simpl; [|done].
    intros x Hx. by apply elem_of_nil in Hx.
Qed.

Lemma invariants_run (evs : list event) : Inv (run evs) ∧ TimerInv (run evs).
Proof.
  unfold run.
  assert (H0 : Inv init ∧ TimerInv init).
  { split; [apply Inv_init|]. split; simpl; intros id H; by apply elem_of_nil in H. }
  revert H0. generalize init.
  induction evs as [|e evs IH]; intros c [HI HT]; simpl; [done|].
  apply IH. split; [by apply Inv_step | by apply TimerInv_step].
Qed.

Definition three_requests : list event :=
  [EvConnect; EvRequest "click" 30000; EvRequest "type" 7020; EvRequest "click" 30000].

(** X1.  When the socket of a connected client closes, the pending map
    is empty afterwards and every request that was pending has been
    rejected with the disconnect error; over the whole run no
    continuation has been called twice. *)
Theorem close_rejects_every_pending_request (evs : list event) :
  socketOpen (run evs) = true →
  let c := run evs in
  let c' := step c EvClose in
  pendingRequests c' = []
  ∧ socketOpen c' = false
  ∧ settled_ids (log c') = settled_ids (log c) ++ keys (pendingRequests c)
  ∧ (∀ id, id ∈ keys (pendingRequests c) →
       Settle id (Rejected "Chrome extension client disconnected.") ∈ log c')
  ∧ NoDup (settled_ids (log c')).
Proof.
  intros Hopen c c'.
  assert (Hnd : NoDup (settled_ids (log c'))) by apply (Inv_step c EvClose), Inv_run.
  revert Hnd. subst c'. cbn [step]. subst c. rewrite Hopen. intros Hnd.
  split_and!; try done.
  - simpl. rewrite !settled_ids_app, settled_ids_reject_all. simpl. by rewrite app_nil_r.
  - intros id Hid. simpl.
    apply elem_of_app. left. apply elem_of_app. right.
    unfold keys in Hid. apply list_elem_of_fmap in Hid as ([k v] & -> & Hkv).
    apply list_elem_of_fmap. by exists (k, v).
Qed.

(** X1, witness: three requests in flight when the socket closes. *)
Lemma close_rejects_every_pending_request_witness :
  settled_ids (log (step (run three_requests) EvClose)) = ["req-0"; "req-1"; "req-2"].
Proof.
  pose proof (close_rejects_every_pending_request three_requests eq_refl)
    as (_ & _ & H & _).
  exact H.
Defined.

(** X2.  A message that carries a request id (and is not a viewport
    synchronisation) touches no pending entry and no timer but those of
    that id: the map afterwards is the map before without this key, the
    other entries in their order; when the id has a pending entry its
    timer is cleared; when it has none (a late reply) the timers stay as
    they are, a timer of that id that is still armed included; and the
    timer of no other id is touched. *)
Theorem response_touches_only_its_request (m : message) (c : client) (id : string) :
  requestId m = Some id → id ≠ "" →
  is_str (command m) "viewportSync" && bool_decide (is_Some (m_viewport m)) = false →
  pendingRequests (handleMessageFromClient m c) = map_delete id (pendingRequests c)
  ∧ (∀ other, other ≠ id →
       map_get other (pendingRequests (handleMessageFromClient m c))
       = map_get other (pendingRequests c))
  ∧ timers (handleMessageFromClient m c)
    = (if map_has id (pendingRequests c) then remove_timer id (timers c) else timers c)
  ∧ (∀ other, other ≠ id →
       other ∈ timers (handleMessageFromClient m c) ↔ other ∈ timers c).
Proof.
  intros Hid Hne Hsync.
  assert (Hp : pendingRequests (handleMessageFromClient m c) = map_delete id (pendingRequests c)
               ∧ timers (handleMessageFromClient m c)
                 = (if map_has id (pendingRequests c)
                    then remove_timer id (timers c) else timers c)).
  { unfold handleMessageFromClient, map_has. rewrite Hsync, Hid. simpl.
    apply String.eqb_neq in Hne. rewrite Hne. simpl.
    destruct (map_get id (pendingRequests c)) as [p|] eqn:E.
    - destruct (is_str (status m) "error"); [|destruct (_ || _)]; simpl; try done.
      unfold update_url. repeat case_match; simpl; done.
    - apply map_get_None in E. by rewrite map_delete_fresh. }
  destruct Hp as [Hp Ht]. split_and!; [exact Hp| |exact Ht|].
  - intros other Ho. rewrite Hp. by apply map_get_delete_ne.
  - intros other Ho. rewrite Ht. destruct (map_has id (pendingRequests c)); [|done].
    unfold remove_timer. rewrite list_elem_of_filter. tauto.
Qed.

(** X2, witness: the reply to [req-1] while [req-0], [req-1] and [req-2]
    are pending. *)
Lemma response_touches_only_its_request_witness :
  keys (pendingRequests
          (handleMessageFromClient
             {| requestId := Some "req-1"; status := Some "ack"; command := Some "type";
                m_viewport := None; m_message := None; m_currentUrl := None; m_url := None;
                m_screenshot := None; m_tabId := None; m_newTabOpened := false;
                m_newTabId := None |}
             (run three_requests)))
  = ["req-0"; "req-2"].
Proof.
  pose proof (response_touches_only_its_request
                {| requestId := Some "req-1"; status := Some "ack"; command := Some "type";
                   m_viewport := None; m_message := None; m_currentUrl := None;
                   m_url := None; m_screenshot := None; m_tabId := None;
                   m_newTabOpened := false; m_newTabId := None |}
                (run three_requests) "req-1" eq_refl ltac:(discriminate) eq_refl)
    as (H & _).
  rewrite H. reflexivity.
Defined.

(** A reply that arrives after the socket closed finds no pending entry:
    the close handler rejected the request without clearing its timer,
    and the late reply leaves that timer armed. *)
Example late_reply_leaves_the_timer_armed :
  (λ c, (keys (pendingRequests c), timers c,
         timers (handleMessageFromClient ok_reply c)))
    (run [EvConnect; EvRequest "click" 30000; EvClose])
  = ([], ["req-0"], ["req-0"]).
Proof. vm_compute. reflexivity. Qed.

(** X3.  Request and response round trip: on a connected client, in any
    state a run can reach, issuing a request and then delivering a
    success or ack reply that carries the issued id leaves the pending
    map and the armed timers as they were before the request, and calls
    the continuation of that id, and of no other, with the response
    built from the reply. *)
Theorem request_then_reply_round_trip (evs : list event) (cmd : string) (t : Z) (m : message) :
  socketOpen (run evs) = true →
  requestId m = Some (request_name (requestIdCounter (run evs))) →
  is_str (status m) "ack" || is_str (status m) "success" = true →
  is_str (command m) "viewportSync" && bool_decide (is_Some (m_viewport m)) = false →
  let c := run evs in
  let id := request_name (requestIdCounter c) in
  let c' := handleMessageFromClient m (request cmd t c) in
  pendingRequests c' = pendingRequests c
  ∧ timers c' = timers c
  ∧ log c' = log c ++ [Send id cmd; ClearTimeout id; Delete id;
                       Settle id (Resolved (success_response m))].
Proof.
  intros Hopen Hid Hst Hsync c id c'.
  destruct (invariants_run evs) as [HI HT]. fold c in HI, HT, Hopen, Hid.
  destruct (issued_fresh c HI) as [Hfresh _]. fold id in Hfresh, Hid.
  assert (Htimer : id ∉ timers c).
  { intros Hin. apply HT in Hin as (k & Hk & E).
    apply request_name_inj in E. lia. }
  assert (Herr : is_str (status m) "error" = false).
  { destruct (status m) as [st|]; [|done]. simpl in *.
    destruct (String.eqb_spec st "error") as [->|]; done. }
  unfold c', request, sendMessageToClient. rewrite Hopen.
  unfold handleMessageFromClient. rewrite Hsync, Hid. simpl. fold id.
  rewrite map_get_set_eq, Herr, Hst. simpl.
  rewrite map_delete_set_fresh by done. rewrite remove_timer_fresh by done.
  unfold update_url. repeat case_match; simpl; by rewrite <- !app_assoc.
Qed.

(** X3, witness: a click on a fresh connection, answered with success. *)
Lemma request_then_reply_round_trip_witness :
  pendingRequests (handleMessageFromClient ok_reply (request "click" 30000 (run [EvConnect])))
  = [].
Proof.
  pose proof (request_then_reply_round_trip [EvConnect] "click" 30000 ok_reply
                eq_refl eq_refl eq_refl eq_refl) as (H & _).
  exact H.
Defined.

(** X4.  Request ids are never reused: in any state a run can reach, the
    id [sendMessageToClient] takes is neither pending, nor already
    settled, nor the owner of an armed timer; the counter advances
    whether or not the send succeeds; and a send on a client that is
    not connected throws without touching the pending map, the timers or
    the log. *)
Theorem request_ids_are_fresh (evs : list event) (cmd : string) :
  let c := run evs in
  let id := request_name (requestIdCounter c) in
  (id ∉ keys (pendingRequests c))
  ∧ (id ∉ settled_ids (log c))
  ∧ (id ∉ timers c)
  ∧ requestIdCounter (fst (sendMessageToClient cmd c)) = N.succ (requestIdCounter c)
  ∧ (snd (sendMessageToClient cmd c) = if socketOpen c then Some id else None)
  ∧ (socketOpen c = false → ∀ t,
       pendingRequests (request cmd t c) = pendingRequests c
       ∧ timers (request cmd t c) = timers c
       ∧ log (request cmd t c) = log c).
Proof.
  intros c id. destruct (invariants_run evs) as [HI HT]. fold c in HI, HT.
  destruct (issued_fresh c HI) as [Hf1 Hf2].
  split_and!; try done.
  - intros Hin. apply HT in Hin as (k & Hk & E). apply request_name_inj in E. lia.
  - unfold sendMessageToClient. by destruct (socketOpen c).
  - unfold sendMessageToClient. by destruct (socketOpen c).
  - intros Hclosed t. unfold request, sendMessageToClient. by rewrite Hclosed.
Qed.

(** X5.  In any state a run can reach, a pending request whose response
    timer fires is rejected with the timeout error naming its command
    and id and is removed from the map, every other entry staying as it
    is; and its timer is armed, so that the rejection can happen. *)
Theorem timeout_rejects_the_pending_request (evs : list event) (id : string) (p : pending) :
  map_get id (pendingRequests (run evs)) = Some p →
  let c := run evs in
  let c' := step c (EvTimeout id) in
  id ∈ timers c
  ∧ log c' = log c ++ [Settle id (Rejected (timeout_text id (p_command p))); Delete id]
  ∧ pendingRequests c' = map_delete id (pendingRequests c)
  ∧ map_get id (pendingRequests c') = None
  ∧ id ∉ timers c'.
Proof.
  intros Hget c c'. destruct (invariants_run evs) as [HI HT]. fold c in HI, HT, Hget.
  assert (Hin : id ∈ timers c) by (by eapply HT, map_get_Some_keys).
  unfold c'. simpl. unfold fireTimeout. rewrite bool_decide_eq_true_2 by done.
  simpl. rewrite Hget. simpl. split_and!; try done.
  - by rewrite <- app_assoc.
  - apply map_get_delete_eq.
  - intros H. apply list_elem_of_filter in H as [H _]. by apply H.
Qed.

(** X5, witness: the timer of [req-1] fires while three requests are
    pending. *)
Lemma timeout_rejects_the_pending_request_witness :
  keys (pendingRequests (step (run three_requests) (EvTimeout "req-1"))) = ["req-0"; "req-2"].
Proof.
  pose proof (timeout_rejects_the_pending_request three_requests "req-1"
                {| p_command := "type"; p_timeoutMs := 7020 |} eq_refl)
    as (_ & _ & H & _).
  rewrite H. reflexivity.
Defined.

(** X6.  A delivered message changes the client's current URL only when
    it is an ack or success reply to a pending request and carries a
    non-empty [currentUrl] or [url]; the URL is then [currentUrl], or
    [url] when [currentUrl] is empty.  Error replies, unmatched replies
    and viewport messages never change it. *)
Theorem current_url_changes_only_on_matched_success (m : message) (c : client) :
  currentUrl (handleMessageFromClient m c) = currentUrl c
  ∨ (∃ id p, requestId m = Some id
       ∧ map_get id (pendingRequests c) = Some p
       ∧ is_str (status m) "error" = false
       ∧ is_str (status m) "ack" || is_str (status m) "success" = true
       ∧ truthy (js_or (m_currentUrl m) (m_url m)) = true
       ∧ currentUrl (handleMessageFromClient m c) = js_or (m_currentUrl m) (m_url m)).
Proof.
  unfold handleMessageFromClient.
  destruct (is_str (command m) "viewportSync" && _).
  { left. by destruct (m_viewport m). }
  destruct (negb (truthy (requestId m)) && _ && _).
  { left. by destruct (scan_command _ _) as [[??]|]. }
  destruct (negb (truthy (requestId m))); [by left|].
  destruct (requestId m) as [id|]; [|by left].
  destruct (map_get id _) as [p|] eqn:E; [|by left].
  destruct (is_str (status m) "error") eqn:Herr; [by left|].
  destruct (_ || _) eqn:Hok; [|by left].
  unfold update_url, js_or.
  destruct (truthy (m_currentUrl m)) eqn:H1; simpl.
  { right. exists id, p. rewrite H1. by split_and!. }
  destruct (truthy (m_url m)) eqn:H2; simpl; [|by left].
  right. exists id, p. by split_and!.
Qed.

(** ** Every request is accounted for *)

(** The ids that were sent to the extension, in order. *)
Definition sent_ids (l : list action) : list string :=
  omap (fun a => match a with Send id _ => Some id | _ => None end) l.

(** [startWebSocketServer] returns at once while the client is connected
    and ready: its reset is reached only on a client that is not
    connected. *)
Fixpoint restarts_while_disconnected (c : client) (evs : list event) : bool :=
  match evs with
  | [] => true
  | e :: evs' =>
    match e with EvRestart => negb (socketOpen c) | _ => true end
    && restarts_while_disconnected (step c e) evs'
  end.

(** What a delivered message or a response timer does to the pending
    map and to the log: nothing, or it takes one pending entry out and
    calls its continuation. *)
Definition takes (c c' : client) : Prop :=
  socketOpen c' = socketOpen c ∧ sent_ids (log c') = sent_ids (log c)
  ∧ ((pendingRequests c' = pendingRequests c ∧ settled_ids (log c') = settled_ids (log c))
     ∨ (∃ id, id ∈ keys (pendingRequests c)
          ∧ pendingRequests c' = map_delete id (pendingRequests c)
          ∧ settled_ids (log c') = settled_ids (log c) ++ [id])).

Lemma sent_ids_app (l1 l2 : list action) :
  sent_ids (l1 ++ l2) = sent_ids l1 ++ sent_ids l2.
Proof. apply omap_app. Qed.

Lemma takes_nothing (c : client) : takes c c.
Proof. split_and!; try done. by left. Qed.

Lemma take_and_settle_takes (id : string) (o : outcome) (c : client) :
  id ∈ keys (pendingRequests c) → takes c (take_and_settle id o c).
Proof.
  intros Hin. split_and!; simpl.
  - done.
  - rewrite !sent_ids_app. simpl. by rewrite !app_nil_r.
  - right. exists id. split_and!; try done.
    rewrite !settled_ids_app. simpl. by rewrite !app_nil_r.
Qed.

Lemma handleMessage_takes (m : message) (c : client) :
  takes c (handleMessageFromClient m c).
Proof.
  unfold handleMessageFromClient.
  destruct (is_str (command m) "viewportSync" && _).
  { destruct (m_viewport m); [|apply takes_nothing]. split_and!; try done. by left. }
  destruct (negb (truthy (requestId m)) && _ && _).
  { destruct (scan_command _ _) as [[reqId p]|] eqn:E; [|apply takes_nothing].
    apply take_and_settle_takes. by eapply scan_command_keys. }
  destruct (negb (truthy (requestId m))); [apply takes_nothing|].
  destruct (requestId m) as [id|]; [|apply takes_nothing].
  destruct (map_get id _) as [p|] eqn:E; [|apply takes_nothing].
  apply map_get_Some_keys in E.
  destruct (is_str (status m) "error"); [by apply take_and_settle_takes|].
  destruct (_ || _); [|by apply take_and_settle_takes].
  unfold update_url. repeat case_match; simpl;
    (split_and!; simpl;
     [ done
     | rewrite !sent_ids_app; simpl; by rewrite !app_nil_r
     | right; exists id; split_and!; try done;
       rewrite !settled_ids_app; simpl; by rewrite !app_nil_r ]).
Qed.

Lemma fireTimeout_takes (id : string) (c : client) : takes c (fireTimeout id c).
Proof.
  unfold fireTimeout. case_bool_decide; [|apply takes_nothing]. simpl.
  destruct (map_get id _) as [p|] eqn:E.
  - apply map_get_Some_keys in E. split_and!; simpl.
    + done.
    + rewrite !sent_ids_app. simpl. by rewrite !app_nil_r.
    + right. exists id. split_and!; try done.
      rewrite !settled_ids_app. simpl. by rewrite !app_nil_r.
  - split_and!; try done. by left.
Qed.

(** While the client is not connected nothing is pending, and every id
    that was sent is pending or has been settled. *)
Record Accounted (c : client) : Prop := {
  acc_disconnected : socketOpen c = false → pendingRequests c = [];
  acc_sent : ∀ id, id ∈ sent_ids (log c) →
               id ∈ keys (pendingRequests c) ∨ id ∈ settled_ids (log c)
}.

Lemma Accounted_takes (c c' : client) : Accounted c → takes c c' → Accounted c'.
Proof.
  intros [H1 H2] (Hs & Hsent & [[Hp Hl]|(id & Hin & Hp & Hl)]); split;
    rewrite ?Hs, ?Hsent, ?Hp, ?Hl; try done.
  - intros Hc. rewrite (H1 Hc) in Hin. by apply elem_of_nil in Hin.
  - intros x Hx. destruct (decide (x = id)) as [->|Hne].
    + right. apply elem_of_app. right. by left.
    + destruct (H2 x Hx) as [Hk|Hk].
      * left. rewrite keys_map_delete. by apply list_elem_of_filter.
      * right. apply elem_of_app. by left.
Qed.

Lemma sent_ids_reject_all (err : string) (m : list (string * pending)) :
  sent_ids (map (λ kv, Settle (fst kv) (Rejected err)) m) = [].
Proof. induction m as [|[k v] m IH]; [done|]. exact IH. Qed.

Lemma Accounted_reject_all (err : string) (c : client) :
  Accounted c → Accounted (reject_all err c).
Proof.
  intros [H1 H2]. unfold reject_all. split; simpl; [done|].
  intros x. rewrite !sent_ids_app, !settled_ids_app, settled_ids_reject_all,
    sent_ids_reject_all. simpl. rewrite !app_nil_r.
  intros Hx. right.
  destruct (H2 x Hx) as [Hk|Hk]; apply elem_of_app; [by right | by left].
Qed.

Lemma Accounted_step (c : client) (e : event) :
  Inv c → Accounted c →
  match e with EvRestart => negb (socketOpen c) | _ => true end = true →
  Accounted (step c e).
Proof.
  intros HI HA He. destruct e as [|cmd t|m|id| |msg| |]; simpl.
  - destruct HA as [H1 H2]. by split.
  - destruct (issued_fresh c HI) as [Hf _]. destruct HA as [H1 H2].
    unfold request, sendMessageToClient. destruct (socketOpen c) eqn:Ho.
    + split; simpl; [congruence|]. rewrite keys_map_set_fresh by done.
      intros x. rewrite sent_ids_app, settled_ids_app. simpl. rewrite app_nil_r.
      intros Hx. apply elem_of_app in Hx as [Hx|Hx].
      * destruct (H2 x Hx) as [Hk|Hk]; [left; apply elem_of_app; by left | by right].
      * left. apply elem_of_app. by right.
    + split; simpl; [intros _; by apply H1 | done].
  - eapply Accounted_takes; [done | apply handleMessage_takes].
  - eapply Accounted_takes; [done | apply fireTimeout_takes].
  - destruct (socketOpen c); [by apply Accounted_reject_all | done].
  - destruct (socketOpen c); [by apply Accounted_reject_all | done].
  - unfold dispose. apply Accounted_reject_all. destruct HA. by split.
  - apply negb_true_iff in He. destruct HA as [H1 H2]. split; simpl; [done|].
    intros x. rewrite sent_ids_app, settled_ids_app. simpl. rewrite !app_nil_r.
    intros Hx. destruct (H2 x Hx) as [Hk|Hk]; [|by right].
    rewrite (H1 He) in Hk. by apply elem_of_nil in Hk.
Qed.

Lemma Accounted_run (evs : list event) :
  ∀ c, Inv c → Accounted c → restarts_while_disconnected c evs = true →
  Accounted (fold_left step evs c).
Proof.
  induction evs as [|e evs IH]; intros c HI HA Hr; simpl; [done|].
  simpl in Hr. apply andb_true_iff in Hr as [He Hr].
  apply IH; [by apply Inv_step | by apply Accounted_step | done].
Qed.

(** X24.  No request is lost.  In a run in which the reset of
    [startWebSocketServer] happens only while the client is not
    connected, every request id that was sent to the extension is either
    still pending, on a connected client and with its response timer
    armed and with its continuation not yet called, or no longer pending
    and its continuation has been called. *)
Theorem no_request_is_lost (evs : list event) (id : string) :
  restarts_while_disconnected init evs = true →
  id ∈ sent_ids (log (run evs)) →
  let c := run evs in
  (id ∈ keys (pendingRequests c) ∧ id ∈ timers c ∧ socketOpen c = true
   ∧ id ∉ settled_ids (log c))
  ∨ (id ∈ settled_ids (log c) ∧ id ∉ keys (pendingRequests c)).
Proof.
  intros Hr Hsent c.
  destruct (invariants_run evs) as [HI HT]. fold c in HI, HT.
  assert (HA : Accounted c).
  { apply Accounted_run; [apply Inv_init| |done].
    split; [done|]. intros x Hx. by apply elem_of_nil in Hx. }
  destruct HA as [H1 H2]. destruct (H2 id Hsent) as [Hk|Hk].
  - left. split_and!; try done.
    + by apply HT.
    + destruct (socketOpen c); [done|]. rewrite H1 in Hk by done.
      by apply elem_of_nil in Hk.
    + intros Hs. by apply (inv_settled_gone c HI id).
  - right. split; [done|]. by apply (inv_settled_gone c HI id).
Qed.

(** X24, witness: three requests, then the socket closes, the server is
    restarted and the extension reconnects. *)
Lemma no_request_is_lost_witness :
  ("req-2" ∈ keys (pendingRequests (run (three_requests ++ [EvClose; EvRestart; EvConnect])))
   ∧ "req-2" ∈ timers (run (three_requests ++ [EvClose; EvRestart; EvConnect]))
   ∧ socketOpen (run (three_requests ++ [EvClose; EvRestart; EvConnect])) = true
   ∧ "req-2" ∉ settled_ids (log (run (three_requests ++ [EvClose; EvRestart; EvConnect]))))
  ∨ ("req-2" ∈ settled_ids (log (run (three_requests ++ [EvClose; EvRestart; EvConnect])))
     ∧ "req-2" ∉ keys (pendingRequests (run (three_requests ++ [EvClose; EvRestart; EvConnect])))).
Proof.
  apply (no_request_is_lost (three_requests ++ [EvClose; EvRestart; EvConnect]) "req-2").
  - reflexivity.
  - vm_compute. right. right. left.
Defined.

End Channel.

(** * Tab processing states and the busy-wait guard (the tab service) *)
Module TabService.

(** The values stored in [tabProcessingStates]: the six members of the
    [TabProcessingState] object, and the string ["batch_processing"] that
    the batch handler stores while a batch runs. *)
Inductive TabProcessingState :=
| IDLE
| NAVIGATION_PENDING
| STABILIZING
| ATTACHING
| CAPTURING
| COMPLETED
| BATCH_PROCESSING.

#[global] Instance TabProcessingState_eq_dec : EqDecision TabProcessingState.
Proof. solve_decision. Defined.

(** [isTabProcessing]: an absent entry counts as idle. *)
Definition isTabProcessing (states : gmap Z TabProcessingState) (tabId : Z) : bool :=
  let currentState := default IDLE (states !! tabId) in
  negb (bool_decide (currentState = IDLE)) && negb (bool_decide (currentState = COMPLETED)).

(** What the polling callback sees each time it runs: the state map as
    the other tasks left it, the clock, and whether [chrome.tabs.get]
    finds the tab. *)
Record poll := {
  p_states : gmap Z TabProcessingState;
  p_now : Z;
  p_tab_exists : bool
}.

Inductive reason := Ready | TimedOut | TabGone.

(** A finished polling chain: the calls of [resolve] in the order they
    were made (the promise is settled by the first), the state map when
    the chain stopped, and the number of polls. *)
Record chain := {
  resolves : list (nat * reason);
  final_states : gmap Z TabProcessingState;
  polls : nat
}.

Definition ready (s : option TabProcessingState) : bool :=
  match s with
  | None | Some COMPLETED | Some IDLE => true
  | _ => false
  end.

Section BusyWait.

Variable tabId : Z.
Variable timeout : Z.
Variable env : nat → poll.

Definition startTime : Z := p_now (env 0).

(** [checkState], called for the [k]-th time.  The [catch] callback of
    [chrome.tabs.get] runs after the synchronous part of the call. *)
Fixpoint checkState (fuel k : nat) : option chain :=
  match fuel with
  | O => None
  | S fuel' =>
    let e := env k in
    let gone := if p_tab_exists e then [] else [(k, TabGone)] in
    if ready (p_states e !! tabId) then
      Some {| resolves := (k, Ready) :: gone; final_states := p_states e; polls := S k |}
    else if timeout <? p_now e - startTime then
      Some {| resolves := (k, TimedOut) :: gone;
              final_states := <[tabId := IDLE]> (p_states e); polls := S k |}
    else
      match checkState fuel' (S k) with
      | Some c => Some {| resolves := gone ++ resolves c;
                          final_states := final_states c; polls := polls c |}
      | None => None
      end
  end.

Inductive waited :=
| BatchBypass      (* the batch marker: resolved at once, no state check *)
| NoWait           (* no entry, or COMPLETED *)
| Polled (c : chain).

Definition waitForTabProcessingComplete (fuel : nat) : option waited :=
  let states := p_states (env 0) in
  if bool_decide (states !! tabId = Some BATCH_PROCESSING) then Some BatchBypass
  else if bool_decide (states !! tabId = None) || bool_decide (states !! tabId = Some COMPLETED)
  then Some NoWait
  else Polled <$> checkState fuel 0.

(** The number of polls after which the elapsed time must exceed the
    timeout when the 500 ms timer never fires early. *)
Definition last_poll : nat := Z.to_nat (timeout / 500) + 1.

Definition busy_at (j : nat) : Prop :=
  ready (p_states (env j) !! tabId) = false
  ∧ p_tab_exists (env j) = true
  ∧ p_now (env j) - startTime ≤ timeout.

(** What the first call of [resolve] of a chain started at poll [k0]
    says about the polls up to it. *)
Definition first_resolve_ok (k0 : nat) (c : chain) : Prop :=
  ∃ k r rest, resolves c = (k, r) :: rest
    ∧ (k0 ≤ k ≤ last_poll)%nat
    ∧ (∀ j, (k0 ≤ j < k)%nat → busy_at j)
    ∧ match r with
      | Ready => ready (p_states (env k) !! tabId) = true
                 ∧ final_states c = p_states (env k)
      | TimedOut => ready (p_states (env k) !! tabId) = false
                 ∧ timeout < p_now (env k) - startTime
                 ∧ final_states c = <[tabId := IDLE]> (p_states (env k))
      | TabGone => p_tab_exists (env k) = false
                 ∧ ready (p_states (env k) !! tabId) = false
                 ∧ p_now (env k) - startTime ≤ timeout
      end.

Hypothesis timer_not_early : ∀ k, p_now (env k) + 500 ≤ p_now (env (S k)).

Lemma elapsed_lower_bound (k : nat) : 500 * Z.of_nat k ≤ p_now (env k) - startTime.
Proof.
  unfold startTime. induction k as [|k IH]; [lia|].
  pose proof (timer_not_early k). lia.
Qed.

Lemma last_poll_times_out : timeout < 500 * Z.of_nat last_poll.
Proof.
  unfold last_poll.
  pose proof (Z.mod_pos_bound timeout 500 ltac:(lia)).
  pose proof (Z.div_mod timeout 500 ltac:(lia)). lia.
Qed.

Lemma checkState_resolves (fuel k : nat) :
  (k ≤ last_poll < k + fuel)%nat →
  ∃ c, checkState fuel k = Some c ∧ first_resolve_ok k c.
Proof.
  revert k. induction fuel as [|fuel IH]; intros k Hk; [lia|]. simpl.
  destruct (ready (p_states (env k) !! tabId)) eqn:Hr.
  { eexists. split; [done|].
    exists k, Ready, (if p_tab_exists (env k) then [] else [(k, TabGone)]).
    simpl. split_and!; try done; lia. }
  destruct (timeout <? p_now (env k) - startTime) eqn:Ht.
  { apply Z.ltb_lt in Ht. eexists. split; [done|].
    exists k, TimedOut, (if p_tab_exists (env k) then [] else [(k, TabGone)]).
    simpl. split_and!; try done; lia. }
  apply Z.ltb_ge in Ht.
  assert (k < last_poll)%nat as Hlt.
  { destruct (decide (k = last_poll)) as [->|]; [|lia].
    pose proof (elapsed_lower_bound last_poll). pose proof last_poll_times_out. lia. }
  destruct (IH (S k)) as (c & -> & (k' & r & rest & Hres & Hk' & Hbusy & Hr')); [lia|].
  eexists. split; [done|]. simpl.
  destruct (p_tab_exists (env k)) eqn:He.
  - exists k', r, rest. simpl. split_and!; try done; try lia.
    intros j Hj. destruct (decide (j = k)) as [->|]; [done|]. apply Hbusy. lia.
  - exists k, TabGone, (resolves c). simpl. split_and!; try done; lia.
Qed.

End BusyWait.

(** The guard at the start of [waitForTabOperationComplete] and of
    [performSimpleOperation]: a busy tab is waited for with a timeout of
    10 s.  [None] of the outer option is a call that is not made. *)
Definition busy_wait_guard (tabId : Z) (env : nat → poll) (fuel : nat) : option (option waited) :=
  if isTabProcessing (p_states (env 0%nat)) tabId
  then Some <$> waitForTabProcessingComplete tabId 10000 env fuel
  else Some None.

(** A tab in the middle of a batch. *)
Definition batch_env (k : nat) : poll :=
  {| p_states := {[ 7 := BATCH_PROCESSING ]}; p_now := 500 * Z.of_nat k; p_tab_exists := true |}.

(** A tab stuck in [STABILIZING]. *)
Definition stuck_env (k : nat) : poll :=
  {| p_states := {[ 7 := STABILIZING ]}; p_now := 500 * Z.of_nat k; p_tab_exists := true |}.

(** C3, counterexample.  Tab 7 is in the state the batch handler stores,
    which is neither idle nor completed, so the guard calls the wait; the
    wait returns at once, without a single poll, and the state is still
    the batch marker: it has not become idle or completed, its entry has
    not disappeared and it has not been reset. *)
Lemma C3_batch_marker_is_not_waited_for :
  isTabProcessing (p_states (batch_env 0)) 7 = true ∧
  busy_wait_guard 7 batch_env 1 = Some (Some BatchBypass) ∧
  p_states (batch_env 0) !! 7 = Some BATCH_PROCESSING.
Proof. vm_compute. repeat split. Qed.

(** C3, as amended.  When the 500 ms polling timer never fires early,
    [waitForTabProcessingComplete] always returns normally within
    [timeout / 500 + 2] polls: at once when the tab carries the batch
    marker, has no entry or is completed; otherwise its promise is
    resolved by the first poll that finds the state idle, completed or
    absent, or that finds the elapsed time above the timeout, in which
    case the state is reset to idle, or whose tab lookup fails; every
    earlier poll found the tab busy, present and within the timeout.
    The coordinator's guard passes a timeout of 10 s, so 22 polls
    suffice there. *)
Theorem C3_busy_wait_returns (tabId timeout : Z) (env : nat → poll) :
  (∀ k, p_now (env k) + 500 ≤ p_now (env (S k))) →
  (∃ w, waitForTabProcessingComplete tabId timeout env (S (last_poll timeout)) = Some w ∧
     match w with
     | BatchBypass => p_states (env 0%nat) !! tabId = Some BATCH_PROCESSING
     | NoWait => ready (p_states (env 0%nat) !! tabId) = true
     | Polled c => first_resolve_ok tabId timeout env 0 c
     end)
  ∧ (∃ g, busy_wait_guard tabId env 22 = Some g ∧
     match g with
     | None => isTabProcessing (p_states (env 0%nat)) tabId = false
     | Some BatchBypass => p_states (env 0%nat) !! tabId = Some BATCH_PROCESSING
     | Some NoWait => False
     | Some (Polled c) => first_resolve_ok tabId 10000 env 0 c
     end).
Proof.
  intros Hclock.
  assert (Hgen : ∀ t, ∃ w,
    waitForTabProcessingComplete tabId t env (S (last_poll t)) = Some w ∧
    match w with
    | BatchBypass => p_states (env 0%nat) !! tabId = Some BATCH_PROCESSING
    | NoWait => ready (p_states (env 0%nat) !! tabId) = true
    | Polled c => first_resolve_ok tabId t env 0 c
    end).
  { intros t. unfold waitForTabProcessingComplete.
    case_bool_decide as Hb; [by eexists|].
    destruct (_ || _) eqn:Hn.
    { eexists. split; [done|]. simpl.
      apply orb_true_iff in Hn as [Hn|Hn]; apply bool_decide_eq_true in Hn; by rewrite Hn. }
    destruct (checkState_resolves tabId t env Hclock (S (last_poll t)) 0) as (c & Hc & Hok); [lia|].
    exists (Polled c). rewrite Hc. done. }
  split; [apply Hgen|].
  unfold busy_wait_guard. destruct (isTabProcessing _ _) eqn:Hbusy; [|by eexists].
  destruct (Hgen 10000) as (w & Hw & Hspec).
  change (S (last_poll 10000)) with 22%nat in Hw. rewrite Hw.
  eexists. split; [done|]. simpl. destruct w; try done.
  unfold isTabProcessing in Hbusy.
  destruct (p_states (env 0%nat) !! tabId) as [[]|]; simpl in *; done.
Qed.

(** C3, witness: tab 7 stuck in [STABILIZING] on a clock that advances by
    exactly 500 ms per poll. *)
Lemma C3_busy_wait_returns_witness :
  ∃ g, busy_wait_guard 7 stuck_env 22 = Some g.
Proof.
  destruct (C3_busy_wait_returns 7 10000 stuck_env) as [_ (g & Hg & _)].
  - intros k. simpl. lia.
  - exists g. exact Hg.
Defined.

(** The stuck tab of the witness is reset after 22 polls. *)
Example stuck_tab_is_reset :
  (λ c, (resolves c, final_states c !! 7, polls c)) <$> checkState 7 10000 stuck_env 22 0
  = Some ([(21%nat, TimedOut)], Some IDLE, 22%nat).
Proof. vm_compute. reflexivity. Qed.

End TabService.

(** * The stability detector ([waitTillHTMLStable]) *)
Module Stability.

(** How a rejected [executeScript] is classified by the [catch] block of
    [getHtmlSize], by the text of its message. *)
Inductive error_kind :=
| Inaccessible   (* "No tab with id", "Cannot access contents of url" *)
| NotReady       (* "Script execution failed", "execution context" *)
| OtherError     (* any other message *)
| NoMessage.     (* the rejection carries no message to inspect *)

(** What the host does during one call of [getHtmlSize]. *)
Inductive attempt :=
| LookupFails                      (* chrome.tabs.get rejects *)
| Loading                          (* tab.status === "loading" *)
| Script (result : option N)       (* executeScript returns a length, or nothing usable *)
| ScriptError (kind : error_kind). (* executeScript rejects *)

Inductive sample :=
| Value (size : Z)
| Throws.

Definition maxErrors : Z := 3.

(** [getHtmlSize]: the sample, the new [errorCount], and the pause the
    call itself makes (50 ms once the tab was found and is not loading). *)
Definition getHtmlSize (a : attempt) (errorCount : Z) : sample * Z * Z :=
  match a with
  | LookupFails => (Value (-1), errorCount, 0)
  | Loading => (Value 0, errorCount, 0)
  | Script (Some n) => (Value (Z.of_N n), 0, 50)
  | Script None => (Value 0, errorCount, 50)
  | ScriptError kind =>
    let e := errorCount + 1 in
    match kind with
    | Inaccessible => (Value (if maxErrors <=? e then -1 else 0), e, 50)
    | NotReady => (Value 0, e, 50)
    | OtherError => (if maxErrors <=? e then Throws else Value 0, e, 50)
    | NoMessage => (Throws, e, 50)
    end
  end.

Record vars := {
  lastHTMLSize : Z;
  stableCount : Z;
  errorCount : Z
}.

Inductive verdict := Stable | Gone | TimedOut.

(** A return of [waitTillHTMLStable]: why, after how many sampling
    attempts, the sizes compared so far (newest first) and the time since
    the call started. *)
Record result := {
  why : verdict;
  attempts : nat;
  history : list Z;
  returned_at : Z
}.

(** [setTimeout(resolve, d)] awaited. *)
Definition pause (d : Z) : Z := Z.max 0 d.

Section Wait.

Variables timeout checkInterval stableIterations : Z.
Variable env : nat → attempt.   (* the host's behaviour at each attempt *)
Variable lat : nat → Z.         (* the time the host calls of each attempt take *)

(** The [while] loop; [t] is [Date.now() - startTime]. *)
Fixpoint loop (fuel k : nat) (s : vars) (hist : list Z) (t : Z) : option result :=
  match fuel with
  | O => None
  | S fuel' =>
    if negb (t <? timeout) then
      Some {| why := TimedOut; attempts := k; history := hist; returned_at := t |}
    else
      let '(smp, e, p) := getHtmlSize (env k) (errorCount s) in
      let t1 := t + lat k + p in
      match smp with
      | Throws =>
        let t2 := t1 + pause checkInterval in
        if timeout - checkInterval <? t2 then
          Some {| why := TimedOut; attempts := S k; history := hist; returned_at := t2 |}
        else
          loop fuel' (S k)
            {| lastHTMLSize := lastHTMLSize s; stableCount := stableCount s; errorCount := e |}
            hist t2
      | Value currentHTMLSize =>
        if currentHTMLSize =? -1 then
          Some {| why := Gone; attempts := S k; history := hist; returned_at := t1 |}
        else
          let stable :=
            if negb (lastHTMLSize s =? 0) && (currentHTMLSize =? lastHTMLSize s)
            then stableCount s + 1 else 0 in
          if stableIterations <=? stable then
            Some {| why := Stable; attempts := S k;
                    history := currentHTMLSize :: hist; returned_at := t1 |}
          else
            loop fuel' (S k)
              {| lastHTMLSize := currentHTMLSize; stableCount := stable; errorCount := e |}
              (currentHTMLSize :: hist) (t1 + pause checkInterval)
      end
  end.

Definition waitTillHTMLStable (fuel : nat) : option result :=
  loop fuel 0 {| lastHTMLSize := 0; stableCount := 0; errorCount := 0 |} [] 0.

End Wait.

(** ** The specification's measure of stability *)

(** How many of the samples [h] (newest first), read from the newest,
    equal [x]. *)
Fixpoint equal_run (x : Z) (h : list Z) : nat :=
  match h with
  | y :: h' => if y =? x then S (equal_run x h') else O
  | [] => O
  end.

(** The number of consecutive samples, ending with the newest, that are
    numerically equal and nonzero. *)
Definition consecutive_equal_nonzero (h : list Z) : nat :=
  match h with
  | [] => O
  | x :: h' => if x =? 0 then O else S (equal_run x h')
  end.

(** The samples seen so far make the loop return: there is a sample, and
    the newest [stableIterations + 1] samples are equal and nonzero (any
    sample will do when [stableIterations] is not positive). *)
Definition stable_now (stableIterations : Z) (h : list Z) : Prop :=
  h ≠ [] ∧
  (stableIterations ≤ 0 ∨ stableIterations + 1 ≤ Z.of_nat (consecutive_equal_nonzero h)).

(** ** The loop's counters follow the history *)

Definition tracks (s : vars) (hist : list Z) : Prop :=
  lastHTMLSize s = hd 0 hist
  ∧ stableCount s = Z.of_nat (pred (consecutive_equal_nonzero hist)).

Lemma tracks_step (s : vars) (hist : list Z) (cur : Z) :
  tracks s hist →
  (if negb (lastHTMLSize s =? 0) && (cur =? lastHTMLSize s) then stableCount s + 1 else 0)
  = Z.of_nat (pred (consecutive_equal_nonzero (cur :: hist))).
Proof.
  intros [Hlast Hcount]. rewrite Hlast, Hcount. clear.
  destruct hist as [|y h]; cbn [consecutive_equal_nonzero equal_run hd];
    repeat (match goal with
            | |- context [?a =? ?b] => destruct (Z.eqb_spec a b)
            end; subst; cbn [negb andb pred]);
    try done; lia.
Qed.

Lemma stable_now_count (n : Z) (h : list Z) :
  stable_now n h ↔ h ≠ [] ∧ n ≤ Z.of_nat (pred (consecutive_equal_nonzero h)).
Proof. unfold stable_now. split; intros [Hne H]; (split; [done | lia]). Qed.

Section WaitFacts.

Variables timeout checkInterval stableIterations : Z.
Variable env : nat → attempt.
Variable lat : nat → Z.

Local Abbreviation loop := (loop timeout checkInterval stableIterations env lat).

(** No sample before the newest one already made the loop return. *)
Definition fresh (hist : list Z) : Prop :=
  ∀ new h, hist = new ++ h → h ≠ [] → ¬ stable_now stableIterations h.

Lemma fresh_cons (cur : Z) (hist : list Z) :
  fresh hist → ¬ stable_now stableIterations (cur :: hist) → fresh (cur :: hist).
Proof.
  intros Hf Hn new h E Hh. destruct new as [|x new]; simpl in E.
  - by subst h.
  - injection E as -> E. by apply (Hf new h).
Qed.

Lemma loop_stable_iff (fuel : nat) :
  ∀ k s hist t r,
  tracks s hist → fresh hist →
  loop fuel k s hist t = Some r →
  (why r = Stable ↔ stable_now stableIterations (history r))
  ∧ (∀ new h, history r = new ++ h → new ≠ [] → h ≠ [] →
       ¬ stable_now stableIterations h).
Proof.
  induction fuel as [|fuel IH]; intros k s hist t r Htr Hfresh Hrun; [done|].
  assert (Hstop : ∀ v a t', v ≠ Stable →
    let r' := {| why := v; attempts := a; history := hist; returned_at := t' |} in
    (why r' = Stable ↔ stable_now stableIterations (history r'))
    ∧ (∀ new h, history r' = new ++ h → new ≠ [] → h ≠ [] →
         ¬ stable_now stableIterations h)).
  { intros v a t' Hv. simpl. split.
    - split; [done|]. intros Hs. exfalso.
      apply (Hfresh [] hist); [done | apply Hs | done].
    - intros new h E _ Hh. by apply (Hfresh new h). }
  simpl in Hrun. destruct (negb (t <? timeout)).
  { injection Hrun as <-. by apply Hstop. }
  destruct (getHtmlSize (env k) (errorCount s)) as [[smp e] p].
  destruct smp as [cur|].
  - destruct (cur =? -1).
    { injection Hrun as <-. by apply Hstop. }
    pose proof (tracks_step s hist cur Htr) as Hstep.
    destruct (stableIterations <=? _) eqn:Hle.
    + injection Hrun as <-. simpl. apply Z.leb_le in Hle. split.
      * split; [intros _|done]. apply stable_now_count. split; [done | lia].
      * intros new h E Hnew Hh. destruct new as [|x new]; [done|].
        simpl in E. injection E as -> E. by apply (Hfresh new h).
    + apply Z.leb_gt in Hle. eapply IH; [| |exact Hrun].
      * split; [done|]. simpl in *. exact Hstep.
      * apply fresh_cons; [done|]. intros Hs.
        apply stable_now_count in Hs as [_ Hs]. lia.
  - destruct (timeout - checkInterval <? _).
    { injection Hrun as <-. by apply Hstop. }
    eapply IH; [| |exact Hrun]; [exact Htr | done].
Qed.

Lemma getHtmlSize_facts (a : attempt) (ec : Z) (smp : sample) (e p : Z) :
  getHtmlSize a ec = (smp, e, p) →
  0 ≤ p ≤ 50 ∧ (a = LookupFails → smp = Value (-1)).
Proof.
  destruct a as [| |[n|]|[]]; simpl; intros [= <- <- <-]; split; try lia; done.
Qed.

Variables tick L : Z.
Hypothesis tick_pos : 0 < tick.
Hypothesis lat_bounds : ∀ k, 0 ≤ lat k ≤ L.
Hypothesis progress : ∀ k, tick ≤ lat k + pause checkInterval.

(** The latest time at which the call can return. *)
Definition deadline : Z := Z.max 0 timeout + L + 50 + pause checkInterval.

Lemma loop_returns (fuel : nat) :
  ∀ k s hist t,
  0 ≤ t ≤ deadline →
  timeout - t ≤ tick * (Z.of_nat fuel - 1) →
  (1 ≤ fuel)%nat →
  ∃ r, loop fuel k s hist t = Some r
    ∧ returned_at r ≤ deadline
    ∧ (∀ j, (k ≤ j < attempts r)%nat → env j = LookupFails →
         why r = Gone ∧ attempts r = S j).
Proof.
  unfold deadline, pause in *.
  induction fuel as [|fuel IH]; intros k s hist t Ht Hfuel Hpos; [lia|].
  simpl. unfold pause. destruct (Z.ltb_spec t timeout) as [Hlt|Hge]; simpl.
  2:{ eexists. split; [done|]. simpl. split; [lia|]. intros j Hj. lia. }
  pose proof (lat_bounds k) as Hlat. pose proof (progress k) as Hprog.
  assert (1 ≤ fuel)%nat as Hfuel' by nia.
  destruct (getHtmlSize (env k) (errorCount s)) as [[smp e] p] eqn:Hg.
  apply getHtmlSize_facts in Hg as [Hp Hlook].
  assert (Hcont : ∀ s' hist', (env k = LookupFails → False) →
    ∃ r, loop fuel (S k) s' hist' (t + lat k + p + Z.max 0 checkInterval) = Some r
      ∧ returned_at r ≤ Z.max 0 timeout + L + 50 + Z.max 0 checkInterval
      ∧ (∀ j, (k ≤ j < attempts r)%nat → env j = LookupFails →
           why r = Gone ∧ attempts r = S j)).
  { intros s' hist' Hnot.
    destruct (IH (S k) s' hist' (t + lat k + p + Z.max 0 checkInterval))
      as (r & Hr & Hd & Hgone); [lia | nia | lia |].
    exists r. split; [done|]. split; [done|].
    intros j Hj Hj'. destruct (decide (j = k)) as [->|]; [by destruct Hnot|].
    apply Hgone; [lia | done]. }
  destruct smp as [cur|].
  - destruct (Z.eqb_spec cur (-1)) as [->|Hcur].
    { eexists. split; [done|]. simpl. split; [lia|].
      intros j Hj _. split; [done|]. f_equal. lia. }
    assert (env k = LookupFails → False) as Hnot.
    { intros Hk. apply Hlook in Hk. congruence. }
    destruct (stableIterations <=? _).
    + eexists. split; [done|]. simpl. split; [lia|].
      intros j Hj Hj'. assert (j = k) as -> by lia. by destruct Hnot.
    + by apply Hcont.
  - assert (env k = LookupFails → False) as Hnot.
    { intros Hk. apply Hlook in Hk. congruence. }
    destruct (timeout - checkInterval <? _).
    + eexists. split; [done|]. simpl. split; [lia|].
      intros j Hj Hj'. assert (j = k) as -> by lia. by destruct Hnot.
    + by apply Hcont.
Qed.

End WaitFacts.

(** ** Example hosts *)

(** A page of constant size 100. *)
Definition steady_env (k : nat) : attempt := Script (Some 100%N).

(** Three samples of size 100, then a page that keeps growing. *)
Definition three_then_change (k : nat) : attempt :=
  if (k <? 3)%nat then Script (Some 100%N) else Script (Some (N.of_nat (200 + k))).

(** A tab that has been closed. *)
Definition closed_env (k : nat) : attempt := LookupFails.

Definition no_latency (k : nat) : Z := 0.

(** C4, counterexample.  With [stableIterations = 3] the first three
    samples are 100, 100 and 100, three consecutive equal nonzero
    samples, and the call does not return then: it goes on sampling and
    ends by timing out. *)
Lemma C4_three_equal_samples_do_not_return :
  (λ r, (why r, take 3 (rev (history r)), attempts r))
    <$> waitTillHTMLStable 5000 500 3 three_then_change no_latency 20
  = Some (TimedOut, [100; 100; 100], 10%nat).
Proof. vm_compute. reflexivity. Qed.

(** C4, as amended.  Whenever [waitTillHTMLStable] returns, it returns as
    stable exactly when the samples it has compared end with
    [stableIterations + 1] consecutive samples that are equal and nonzero
    (with a [stableIterations] that is not positive: when there is any
    sample); and no shorter prefix of these samples satisfied this, so
    the return is at the first sample that completes such a run. *)
Theorem C4_stable_return (timeout checkInterval stableIterations : Z)
    (env : nat → attempt) (lat : nat → Z) (fuel : nat) (r : result) :
  waitTillHTMLStable timeout checkInterval stableIterations env lat fuel = Some r →
  (why r = Stable ↔ stable_now stableIterations (history r))
  ∧ (∀ new h, history r = new ++ h → new ≠ [] → h ≠ [] →
       ¬ stable_now stableIterations h).
Proof.
  intros Hrun. eapply loop_stable_iff; [| |exact Hrun].
  - split; reflexivity.
  - intros new h E Hh. by destruct new, h.
Qed.

(** C4, witness: a page of constant size 100 is stable at the fourth
    sample. *)
Lemma C4_stable_return_witness : stable_now 3 [100; 100; 100; 100].
Proof.
  apply (C4_stable_return 5000 500 3 steady_env no_latency 20
           {| why := Stable; attempts := 4; history := [100; 100; 100; 100];
              returned_at := 1700 |}); reflexivity.
Defined.

(** C5, counterexample.  The host calls of an attempt are awaited
    without a timeout of their own.  With a timeout of 5 s and an
    interval of 500 ms, on a page of constant size whose host calls take
    60 s, the call returns 60.55 s after it started, after one attempt:
    55 s, or 110 poll intervals, after its timeout. *)
Lemma C5_slow_host_call_delays_the_return :
  (λ r, (why r, attempts r, returned_at r))
    <$> waitTillHTMLStable 5000 500 3 steady_env (λ _, 60000) 12
  = Some (TimedOut, 1%nat, 60550).
Proof. vm_compute. reflexivity. Qed.

(** C5, as amended.  If the host calls of every sampling attempt take
    between 0 and [L] ms and every pass through the loop takes at least
    [tick > 0] ms
    (true with [tick = checkInterval] for a positive interval), the call
    returns, whatever the attempts do (errors included), after at most
    [timeout / tick + 2] passes and no later than
    [timeout + L + 50 + checkInterval] ms after it started; the return is
    a normal one for each of the three reasons; and an attempt whose tab
    lookup fails is the last one: the call returns in it with [Gone]. *)
Theorem C5_always_returns (timeout checkInterval stableIterations tick L : Z)
    (env : nat → attempt) (lat : nat → Z) :
  0 < tick →
  (∀ k, 0 ≤ lat k ≤ L) →
  (∀ k, tick ≤ lat k + pause checkInterval) →
  ∃ r, waitTillHTMLStable timeout checkInterval stableIterations env lat
         (Z.to_nat (timeout / tick) + 2) = Some r
    ∧ returned_at r ≤ Z.max 0 timeout + L + 50 + pause checkInterval
    ∧ (∀ j, (j < attempts r)%nat → env j = LookupFails →
         why r = Gone ∧ attempts r = S j ∧ (j = 0%nat → returned_at r = lat 0%nat)).
Proof.
  intros Htick Hlat Hprog.
  destruct (loop_returns timeout checkInterval stableIterations env lat tick L
              Htick Hlat Hprog (Z.to_nat (timeout / tick) + 2) 0
              {| lastHTMLSize := 0; stableCount := 0; errorCount := 0 |} [] 0)
    as (r & Hr & Hd & Hgone).
  - unfold deadline, pause. pose proof (Hlat 0%nat). lia.
  - pose proof (Z.mod_pos_bound timeout tick Htick).
    pose proof (Z.div_mod timeout tick ltac:(lia)).
    destruct (Z_lt_le_dec timeout 0) as [Hneg|Hpos].
    + assert (timeout / tick < 0) by (apply Z.div_lt_upper_bound; lia). nia.
    + assert (0 ≤ timeout / tick) by (apply Z.div_pos; lia). nia.
  - lia.
  - exists r. split; [exact Hr|]. split; [exact Hd|].
    intros j Hj Hfail. destruct (Hgone j ltac:(lia) Hfail) as [Hw Ha].
    split; [done|]. split; [done|]. intros ->.
    unfold waitTillHTMLStable in Hr. rewrite Nat.add_comm in Hr. simpl in Hr.
    rewrite Hfail in Hr. simpl in Hr.
    destruct (0 <? timeout); simpl in Hr; injection Hr as <-; simpl in *; [lia | done].
Qed.

(** C5, witness: a closed tab, polled every 500 ms with a 5 s timeout. *)
Lemma C5_always_returns_witness :
  ∃ r, waitTillHTMLStable 5000 500 3 closed_env no_latency 12 = Some r
    ∧ returned_at r ≤ 5550.
Proof.
  destruct (C5_always_returns 5000 500 3 500 0 closed_env no_latency)
    as (r & Hr & Hd & _).
  - lia.
  - intros k. unfold no_latency. lia.
  - intros k. unfold no_latency, pause. lia.
  - exists r. split; [exact Hr | exact Hd].
Defined.

(** Every attempt fails with an unclassified error: the call still
    returns normally, at the timeout. *)
Example all_attempts_fail :
  (λ r, (why r, attempts r, returned_at r))
    <$> waitTillHTMLStable 5000 500 3 (λ _, ScriptError OtherError) no_latency 12
  = Some (TimedOut, 9%nat, 4950).
Proof. vm_compute. reflexivity. Qed.

(** ** Further facts about the detector *)

(** What one call of [getHtmlSize] can answer, by the kind of attempt. *)
Lemma getHtmlSize_gone (a : attempt) (ec : Z) (e p : Z) :
  getHtmlSize a ec = (Value (-1), e, p) →
  a = LookupFails ∨ (a = ScriptError Inaccessible ∧ maxErrors ≤ ec + 1).
Proof.
  destruct a as [| |[n|]|[]]; simpl.
  - by left.
  - intros [= ? ? ?].
  - intros [= ? ? ?]. lia.
  - intros [= ? ? ?].
  - destruct (Z.leb_spec maxErrors (ec + 1)); intros [= ? ?]; by right.
  - intros [= ? ? ?].
  - destruct (maxErrors <=? ec + 1); intros [= ? ? ?].
  - intros [= ? ? ?].
Qed.

Lemma getHtmlSize_errorCount (a : attempt) (ec : Z) (smp : sample) (e p : Z) :
  getHtmlSize a ec = (smp, e, p) → 0 ≤ ec → 0 ≤ e ≤ ec + 1.
Proof.
  destruct a as [| |[n|]|[]]; simpl; intros [= <- <- <-]; lia.
Qed.

(** The value of [errorCount] before attempt [k]: the number of attempts
    that ended in a script error, of whatever kind, since the last
    attempt whose script returned a size. *)
Fixpoint script_errors_before (env : nat → attempt) (k : nat) : Z :=
  match k with
  | O => 0
  | S k' =>
    match env k' with
    | Script (Some _) => 0
    | ScriptError _ => script_errors_before env k' + 1
    | _ => script_errors_before env k'
    end
  end.

Lemma getHtmlSize_counts (a : attempt) (ec : Z) (smp : sample) (e p : Z) :
  getHtmlSize a ec = (smp, e, p) →
  e = match a with
      | Script (Some _) => 0
      | ScriptError _ => ec + 1
      | _ => ec
      end.
Proof. destruct a as [| |[n|]|[]]; simpl; by intros [= <- <- <-]. Qed.

(** An attempt that yields no size: the tab is loading, the script gives
    nothing usable, or it fails with an error that is not about the tab
    being gone. *)
Definition no_size (a : attempt) : Prop :=
  a = Loading ∨ a = Script None ∨ a = ScriptError NotReady
  ∨ a = ScriptError OtherError ∨ a = ScriptError NoMessage.

Lemma getHtmlSize_no_size (a : attempt) (ec : Z) (smp : sample) (e p : Z) :
  no_size a → getHtmlSize a ec = (smp, e, p) → smp = Value 0 ∨ smp = Throws.
Proof.
  intros [-> | [-> | [-> | [-> | ->]]]]; simpl; try (intros [= <- <- <-]; by left).
  - destruct (maxErrors <=? ec + 1); intros [= <- <- <-]; [by right | by left].
  - intros [= <- <- <-]. by right.
Qed.

Section MoreWaitFacts.

Variables timeout checkInterval stableIterations : Z.
Variable env : nat → attempt.
Variable lat : nat → Z.

Local Abbreviation loop := (loop timeout checkInterval stableIterations env lat).

Lemma loop_gone (fuel : nat) :
  ∀ k s hist t r,
  errorCount s = script_errors_before env k →
  loop fuel k s hist t = Some r → why r = Gone →
  ∃ j, attempts r = S j
    ∧ (env j = LookupFails
       ∨ (env j = ScriptError Inaccessible ∧ maxErrors ≤ script_errors_before env (S j))).
Proof.
  induction fuel as [|fuel IH]; intros k s hist t r Hec Hrun Hgone; [done|].
  simpl in Hrun. destruct (negb (t <? timeout)).
  { injection Hrun as <-. done. }
  destruct (getHtmlSize (env k) (errorCount s)) as [[smp e] p] eqn:Hg.
  pose proof (getHtmlSize_counts _ _ _ _ _ Hg) as He.
  assert (Hnext : e = script_errors_before env (S k)).
  { rewrite He, Hec. simpl. by destruct (env k) as [| |[n|]|[]]. }
  destruct smp as [cur|].
  - destruct (Z.eqb_spec cur (-1)) as [->|Hcur].
    { injection Hrun as <-. exists k. split; [done|].
      apply getHtmlSize_gone in Hg as [Hg|[Hg Hmax]]; [by left|].
      right. split; [done|]. rewrite <- Hnext, He, Hg. done. }
    destruct (stableIterations <=? _).
    { injection Hrun as <-. done. }
    eapply IH; [|exact Hrun|done]. done.
  - destruct (timeout - checkInterval <? _).
    { injection Hrun as <-. done. }
    eapply IH; [|exact Hrun|done]. done.
Qed.

Lemma loop_no_size (fuel : nat) :
  ∀ k s hist t r,
  (∀ j, no_size (env j)) →
  Forall (λ x, x = 0) hist →
  loop fuel k s hist t = Some r →
  why r ≠ Gone ∧ Forall (λ x, x = 0) (history r).
Proof.
  induction fuel as [|fuel IH]; intros k s hist t r Hno Hh Hrun; [done|].
  simpl in Hrun. destruct (negb (t <? timeout)).
  { injection Hrun as <-. done. }
  destruct (getHtmlSize (env k) (errorCount s)) as [[smp e] p] eqn:Hg.
  destruct (getHtmlSize_no_size _ _ _ _ _ (Hno k) Hg) as [-> | ->].
  - simpl in Hrun. destruct (stableIterations <=? _).
    + injection Hrun as <-. split; [done|]. by constructor.
    + eapply IH; [done| |exact Hrun]. by constructor.
  - destruct (timeout - checkInterval <? _).
    + injection Hrun as <-. done.
    + by eapply IH.
Qed.

Lemma loop_timed_out (fuel : nat) :
  ∀ k s hist t r,
  loop fuel k s hist t = Some r → why r = TimedOut →
  timeout - pause checkInterval ≤ returned_at r.
Proof.
  induction fuel as [|fuel IH]; intros k s hist t r Hrun Hto; [done|].
  simpl in Hrun. unfold pause in *. destruct (Z.ltb_spec t timeout); simpl in Hrun.
  2:{ injection Hrun as <-. simpl. lia. }
  destruct (getHtmlSize (env k) (errorCount s)) as [[smp e] p].
  destruct smp as [cur|].
  - destruct (cur =? -1).
    { injection Hrun as <-. done. }
    destruct (stableIterations <=? _).
    { injection Hrun as <-. done. }
    by eapply IH.
  - destruct (Z.ltb_spec (timeout - checkInterval)
                (t + lat k + p + Z.max 0 checkInterval)).
    + injection Hrun as <-. simpl. lia.
    + by eapply IH.
Qed.

Variable tick : Z.
Hypothesis lat_nonneg : ∀ k, 0 ≤ lat k.
Hypothesis progress : ∀ k, tick ≤ lat k + pause checkInterval.

Lemma loop_attempts (fuel : nat) :
  ∀ k s hist t r,
  Z.of_nat k * tick ≤ t →
  (k = 0%nat ∨ (Z.of_nat k - 1) * tick < timeout) →
  loop fuel k s hist t = Some r →
  attempts r = 0%nat ∨ (Z.of_nat (attempts r) - 1) * tick < timeout.
Proof.
  induction fuel as [|fuel IH]; intros k s hist t r Ht Hk Hrun; [done|].
  simpl in Hrun. destruct (Z.ltb_spec t timeout); simpl in Hrun.
  2:{ injection Hrun as <-. simpl. destruct Hk; [by left | by right]. }
  assert (Hnext : (Z.of_nat (S k) - 1) * tick < timeout).
  { replace (Z.of_nat (S k) - 1) with (Z.of_nat k) by lia. lia. }
  pose proof (lat_nonneg k) as Hl. pose proof (progress k) as Hp. unfold pause in *.
  destruct (getHtmlSize (env k) (errorCount s)) as [[smp e] p] eqn:Hg.
  apply getHtmlSize_facts in Hg as [Hp50 _].
  destruct smp as [cur|].
  - destruct (cur =? -1).
    { injection Hrun as <-. by right. }
    destruct (stableIterations <=? _).
    { injection Hrun as <-. by right. }
    eapply IH; [|by right|exact Hrun]. nia.
  - destruct (timeout - checkInterval <? _).
    { injection Hrun as <-. by right. }
    eapply IH; [|by right|exact Hrun]. nia.
Qed.

End MoreWaitFacts.

(** A tab whose content can never be read. *)
Definition inaccessible_env (k : nat) : attempt := ScriptError Inaccessible.

(** A tab that never finishes loading. *)
Definition loading_env (k : nat) : attempt := Loading.

(** X11.  The call gives the tab up as gone only in an attempt whose tab
    lookup fails, or whose script fails with a no-such-tab or
    cannot-access error when, this attempt included, at least three
    attempts have ended in a script error of whatever kind since the
    last attempt whose script returned a size. *)
Theorem gone_needs_lookup_failure_or_third_error
    (timeout checkInterval stableIterations : Z)
    (env : nat → attempt) (lat : nat → Z) (fuel : nat) (r : result) :
  waitTillHTMLStable timeout checkInterval stableIterations env lat fuel = Some r →
  why r = Gone →
  ∃ j, attempts r = S j
    ∧ (env j = LookupFails
       ∨ (env j = ScriptError Inaccessible ∧ maxErrors ≤ script_errors_before env (S j))).
Proof. intros Hrun. by eapply loop_gone; [|exact Hrun]. Qed.

(** X11, witness: a tab whose content cannot be accessed is given up at
    the third attempt. *)
Lemma gone_needs_lookup_failure_or_third_error_witness :
  ∃ j, 3%nat = S j
    ∧ (inaccessible_env j = LookupFails
       ∨ (inaccessible_env j = ScriptError Inaccessible
          ∧ maxErrors ≤ script_errors_before inaccessible_env (S j))).
Proof.
  apply (gone_needs_lookup_failure_or_third_error 5000 500 3 inaccessible_env no_latency 20
           {| why := Gone; attempts := 3; history := [0; 0]; returned_at := 1150 |});
    reflexivity.
Defined.

(** The error count is shared by all kinds of script error: after two
    not-ready errors a single cannot-access error gives the tab up; and
    a returned size resets the count. *)
Example one_inaccessible_error_after_two_others :
  (λ env, (λ r, (why r, attempts r)) <$> waitTillHTMLStable 5000 500 3 env no_latency 20)
    <$> [ (λ k, if (k <? 2)%nat then ScriptError NotReady else ScriptError Inaccessible);
          (λ k, if (k <? 2)%nat then Script (Some 100%N) else ScriptError Inaccessible) ]
  = [Some (Gone, 3%nat); Some (Gone, 5%nat)].
Proof. vm_compute. reflexivity. Qed.

(** X12.  When no attempt ever yields a size (the tab stays loading, the
    script gives nothing usable or fails with errors that are not about
    the tab being gone) and at least one stable comparison is asked for,
    the call returns neither as stable nor as gone: it runs to its
    timeout, having compared only zeros. *)
Theorem unreadable_page_times_out
    (timeout checkInterval stableIterations : Z)
    (env : nat → attempt) (lat : nat → Z) (fuel : nat) (r : result) :
  (∀ j, no_size (env j)) →
  1 ≤ stableIterations →
  waitTillHTMLStable timeout checkInterval stableIterations env lat fuel = Some r →
  why r = TimedOut ∧ Forall (λ x, x = 0) (history r).
Proof.
  intros Hno Hn Hrun.
  destruct (loop_no_size _ _ _ _ _ _ _ _ _ _ _ Hno (Forall_nil_2 _) Hrun) as [Hg Hz].
  split; [|exact Hz].
  destruct (loop_stable_iff timeout checkInterval stableIterations env lat fuel
              0 {| lastHTMLSize := 0; stableCount := 0; errorCount := 0 |} [] 0 r
              ltac:(by split) ltac:(intros new h E Hh; by destruct new, h) Hrun)
    as [[Hst _] _].
  destruct (why r) eqn:Hw; try done.
  destruct (Hst eq_refl) as [Hne [Hle|Hle]]; [lia|]. exfalso.
  destruct (history r) as [|x h]; [done|].
  apply Forall_cons in Hz as [-> _]. simpl in Hle. lia.
Qed.

(** X12, witness: a tab that never finishes loading. *)
Lemma unreadable_page_times_out_witness :
  TimedOut = TimedOut ∧ Forall (λ x, x = 0) [0; 0; 0; 0; 0; 0; 0; 0; 0; 0].
Proof.
  apply (unreadable_page_times_out 5000 500 3 loading_env no_latency 20
           {| why := TimedOut; attempts := 10;
              history := [0; 0; 0; 0; 0; 0; 0; 0; 0; 0]; returned_at := 5000 |}).
  - intros j. by left.
  - lia.
  - reflexivity.
Defined.

(** X13.  A return by timeout never comes earlier than one poll interval
    before the timeout. *)
Theorem timeout_return_is_not_early
    (timeout checkInterval stableIterations : Z)
    (env : nat → attempt) (lat : nat → Z) (fuel : nat) (r : result) :
  waitTillHTMLStable timeout checkInterval stableIterations env lat fuel = Some r →
  why r = TimedOut →
  timeout - pause checkInterval ≤ returned_at r.
Proof. intros Hrun. by eapply loop_timed_out. Qed.

(** X13, witness: every attempt throws; the call gives up at 4950 ms of
    its 5000 ms. *)
Lemma timeout_return_is_not_early_witness : 5000 - pause 500 ≤ 4950.
Proof.
  apply (timeout_return_is_not_early 5000 500 3 (λ _, ScriptError OtherError) no_latency 12
           {| why := TimedOut; attempts := 9; history := [0; 0]; returned_at := 4950 |});
    reflexivity.
Defined.

(** X14.  When the host calls take no negative time and every pass
    through the loop takes at least [tick] ms, the number of sampling
    attempts is bounded by the timeout: an attempt is only started while
    [(attempts - 1) * tick] is below the timeout. *)
Theorem attempts_are_bounded
    (timeout checkInterval stableIterations tick : Z)
    (env : nat → attempt) (lat : nat → Z) (fuel : nat) (r : result) :
  (∀ k, 0 ≤ lat k) →
  (∀ k, tick ≤ lat k + pause checkInterval) →
  waitTillHTMLStable timeout checkInterval stableIterations env lat fuel = Some r →
  attempts r = 0%nat ∨ (Z.of_nat (attempts r) - 1) * tick < timeout.
Proof.
  intros Hlat Hprog Hrun.
  eapply (loop_attempts timeout checkInterval stableIterations env lat tick
            Hlat Hprog); [| |exact Hrun]; [simpl; lia | by left].
Qed.

(** X14, witness: ten attempts of 500 ms each within 5000 ms. *)
Lemma attempts_are_bounded_witness :
  10%nat = 0%nat ∨ (Z.of_nat 10 - 1) * 500 < 5000.
Proof.
  apply (attempts_are_bounded 5000 500 3 500 loading_env no_latency 20
           {| why := TimedOut; attempts := 10;
              history := [0; 0; 0; 0; 0; 0; 0; 0; 0; 0]; returned_at := 5000 |}).
  - intros k. unfold no_latency. lia.
  - intros k. unfold no_latency, pause. lia.
  - reflexivity.
Defined.

End Stability.

(** * The debugger session manager ([services/debuggerService.js]) *)
Module DebuggerService.

(** An entry of [chrome.debugger.getTargets()]. *)
Record target := { t_tabId : option Z; t_attached : bool }.

(** The part of [chrome.debugger] the service calls.  Every call may
    change the host; a call that rejects answers [None] or [false]. *)
Class DebuggerHost (H : Type) := {
  getTargets : H → H * option (list target);
  attach : Z → H → H * bool;
  detach : Z → H → H * bool;
  sendCommand : Z → string → H → H * bool
}.

Section Service.

Context {H : Type} `{DebuggerHost H}.

(** The host together with the module's global [debugTarget]. *)
Record session := { host : H; debugTarget : option Z }.

(** [isDebuggerAttached]: never throws. *)
Definition isDebuggerAttached (tabId : Z) (h : H) : H * bool :=
  match getTargets h with
  | (h', Some targets) =>
    (h', existsb (λ t, bool_decide (t_tabId t = Some tabId) && t_attached t) targets)
  | (h', None) => (h', false)
  end.

(** [safelyDetachPreviousDebugger]: never throws. *)
Definition safelyDetachPreviousDebugger (tabId : Z) (s : session) : session :=
  match debugTarget s with
  | None => s
  | Some old =>
    if old =? tabId then s
    else
      let (h1, isOldTargetAttached) := isDebuggerAttached old (host s) in
      let h3 :=
        if isOldTargetAttached then
          let (h2, _) := sendCommand old "Emulation.clearDeviceMetricsOverride" h1 in
          fst (detach old h2)
        else h1 in
      {| host := h3; debugTarget := None |}
  end.

(** The [catch] block of [attachDebugger]. *)
Definition attach_failed (tabId : Z) (s : session) : session * bool :=
  ({| host := host s;
      debugTarget := if bool_decide (debugTarget s = Some tabId) then None else debugTarget s |},
   false).

Definition attachDebugger (tabId : Z) (s : session) : session * bool :=
  if tabId =? 0 then (s, false)
  else
    let (h1, alreadyAttached) := isDebuggerAttached tabId (host s) in
    if alreadyAttached then ({| host := h1; debugTarget := Some tabId |}, true)
    else
      let s2 := safelyDetachPreviousDebugger tabId {| host := h1; debugTarget := debugTarget s |} in
      let at2 (h : H) := {| host := h; debugTarget := debugTarget s2 |} in
      let (h3, ok3) := attach tabId (host s2) in
      if negb ok3 then attach_failed tabId (at2 h3) else
      let (h4, ok4) := sendCommand tabId "Page.enable" h3 in
      if negb ok4 then attach_failed tabId (at2 h4) else
      let (h5, ok5) := sendCommand tabId "Runtime.enable" h4 in
      if negb ok5 then attach_failed tabId (at2 h5) else
      let (h6, ok6) := sendCommand tabId "DOM.enable" h5 in
      if negb ok6 then attach_failed tabId (at2 h6) else
      let (h7, verifyAttached) := isDebuggerAttached tabId h6 in
      ({| host := h7; debugTarget := Some tabId |}, verifyAttached).

(** Whether a failing call got as far as the verification: the attach
    and the three enable commands went through. *)
Definition reached_verification (tabId : Z) (s : session) : bool :=
  if tabId =? 0 then false
  else
    let (h1, alreadyAttached) := isDebuggerAttached tabId (host s) in
    if alreadyAttached then false
    else
      let s2 := safelyDetachPreviousDebugger tabId {| host := h1; debugTarget := debugTarget s |} in
      let (h3, ok3) := attach tabId (host s2) in
      let (h4, ok4) := sendCommand tabId "Page.enable" h3 in
      let (h5, ok5) := sendCommand tabId "Runtime.enable" h4 in
      let (h6, ok6) := sendCommand tabId "DOM.enable" h5 in
      ok3 && ok4 && ok5 && ok6.

(** Every failure on the way to the verification leaves [debugTarget]
    different from the tab that was asked for. *)
Lemma failure_before_verification_clears (tabId : Z) (s : session) :
  debugTarget s ≠ Some 0 →
  snd (attachDebugger tabId s) = false →
  reached_verification tabId s = false →
  debugTarget (fst (attachDebugger tabId s)) ≠ Some tabId.
Proof.
  unfold attachDebugger, reached_verification, attach_failed.
  intros Hz. destruct (Z.eqb_spec tabId 0) as [->|Hne]; [done|].
  destruct (isDebuggerAttached tabId (host s)) as [h1 [|]]; [done|].
  set (s2 := safelyDetachPreviousDebugger _ _).
  destruct (attach tabId (host s2)) as [h3 [|]]; simpl.
  2:{ intros _ _. case_bool_decide as E; [done | exact E]. }
  destruct (sendCommand tabId "Page.enable" h3) as [h4 [|]]; simpl.
  2:{ intros _ _. case_bool_decide as E; [done | exact E]. }
  destruct (sendCommand tabId "Runtime.enable" h4) as [h5 [|]]; simpl.
  2:{ intros _ _. case_bool_decide as E; [done | exact E]. }
  destruct (sendCommand tabId "DOM.enable" h5) as [h6 [|]]; simpl.
  2:{ intros _ _. case_bool_decide as E; [done | exact E]. }
  done.
Qed.

End Service.

(** A host whose commands all report success and do nothing: no target
    is ever listed as attached. *)
#[global] Instance silent_host : DebuggerHost unit := {
  getTargets h := (h, Some []);
  attach _ h := (h, true);
  detach _ h := (h, true);
  sendCommand _ _ h := (h, true)
}.

(** C6, the code at the failing input.  On the silent host, with no
    session before, [attachDebugger(5)] gets through the attach and the
    three enable commands, fails the verification and returns false, and
    [debugTarget] is left set to tab 5. *)
Theorem C6_verification_failure_keeps_target :
  attachDebugger 5 {| host := tt; debugTarget := None |}
  = ({| host := tt; debugTarget := Some 5 |}, false).
Proof. reflexivity. Qed.

(** ** The other entry points of the session *)

(** What can go wrong in [performType]. *)
Inductive type_error := NoTabToType | AttachThrew | AssignmentThrew | InsertTextThrew.

Section Session.

Context {H : Type} `{DebuggerHost H}.



(** [performType] of the interaction service, on the tab that
    [getActiveTabId] returned.  When the session is on another tab it
    detaches that tab and attaches the debugger itself; the assignment
    [debugTarget = typeTarget] that follows is to a binding imported from
    the debugger service, which is read-only: it throws, the global
    keeps its value and [Input.insertText] is not sent. *)
Definition performType (active : option Z) (s : @session H) : @session H * option type_error :=
  match active with
  | None => (s, Some NoTabToType)
  | Some tabId =>
    if bool_decide (debugTarget s = Some tabId) then
      let (h, ok) := sendCommand tabId "Input.insertText" (host s) in
      ({| host := h; debugTarget := debugTarget s |},
       if ok then None else Some InsertTextThrew)
    else
      let h1 := match debugTarget s with
                | Some old => fst (detach old (host s))
                | None => host s
                end in
      let (h2, ok) := attach tabId h1 in
      ({| host := h2; debugTarget := debugTarget s |},
       Some (if ok then AssignmentThrew else AttachThrew))
  end.


(** X8.  On any host, a call of [attachDebugger] that fails because the
    attach or one of the three enable commands throws does not leave the
    global target set to the tab that was asked for. *)
Theorem attach_failure_before_verification_clears_target (tabId : Z) (s : @session H) :
  debugTarget s ≠ Some 0 →
  snd (attachDebugger tabId s) = false →
  reached_verification tabId s = false →
  debugTarget (fst (attachDebugger tabId s)) ≠ Some tabId.
Proof. apply failure_before_verification_clears. Qed.

End Session.

(** ** A host that keeps track of attachments *)

(** The tabs a debugger is attached to, and the commands sent. *)
Record chrome := { attached : gset Z; commands : list (Z * string) }.

(** [attach] fails on a tab that already has a debugger; [detach] and
    [sendCommand] fail on a tab that has none. *)
#[global] Instance tracking_host : DebuggerHost chrome := {
  getTargets h :=
    (h, Some ((λ t, {| t_tabId := Some t; t_attached := true |}) <$> elements (attached h)));
  attach t h :=
    if bool_decide (t ∈ attached h) then (h, false)
    else ({| attached := {[t]} ∪ attached h; commands := commands h |}, true);
  detach t h :=
    if bool_decide (t ∈ attached h)
    then ({| attached := attached h ∖ {[t]}; commands := commands h |}, true)
    else (h, false);
  sendCommand t method h :=
    if bool_decide (t ∈ attached h)
    then ({| attached := attached h; commands := commands h ++ [(t, method)] |}, true)
    else (h, false)
}.




Definition no_session : @session chrome :=
  {| host := {| attached := ∅; commands := [] |}; debugTarget := None |}.




#[local] Set Warnings "-clear-no-such-hyp".








(** [performType] on a tab the session is not on attaches the debugger
    to it and then fails at the assignment, so the global target does
    not name the tab; a later [attachDebugger] of another tab finds no
    previous target to detach, and two tabs are attached. *)
Example performType_leaves_a_second_session :
  let s1 := performType (Some 5) no_session in
  let s2 := attachDebugger 7 (fst s1) in
  (snd s1, bool_decide (attached (host (fst s1)) = {[5]}), debugTarget (fst s1),
   snd s2, bool_decide (attached (host (fst s2)) = {[5; 7]}), debugTarget (fst s2))
  = (Some AssignmentThrew, true, None, true, true, Some 7).
Proof. vm_compute. reflexivity. Qed.

(** A host whose [attach] succeeds only while its flag is set. *)
#[global] Instance flagged_host : DebuggerHost bool := {
  getTargets h := (h, Some []);
  attach _ h := (h, h);
  detach _ h := (h, true);
  sendCommand _ _ h := (h, true)
}.


(** X8, witness: the attach to tab 5 is refused while the global target
    still names tab 5 from an earlier session. *)
Lemma attach_failure_before_verification_clears_target_witness :
  bool_decide (debugTarget (fst (attachDebugger 5 {| host := false; debugTarget := Some 5 |}))
               = Some 5) = false.
Proof.
  apply bool_decide_eq_false_2.
  apply attach_failure_before_verification_clears_target; [discriminate | reflexivity..].
Defined.

End DebuggerService.

(** * The per-tab debug state cache of the tab service ([services/tabService.js]) *)
Module DebugState.

Import DebuggerService.

(** A value of the [debuggedTabs] map. *)
Record debug_state := {
  hasDebugger : bool;
  hasViewport : bool;
  timestamp : Z       (* Date.now() when the entry was written *)
}.

Record needs := { needsDebugger : bool; needsViewport : bool }.

(** [setTabDebugState], called at the time [now]. *)
Definition setTabDebugState (tabId : Z) (hasDebugger hasViewport : bool) (now : Z)
    (debuggedTabs : gmap Z debug_state) : gmap Z debug_state :=
  <[tabId := {| hasDebugger := hasDebugger; hasViewport := hasViewport; timestamp := now |}]>
    debuggedTabs.

(** [clearTabDebugState] *)
Definition clearTabDebugState (tabId : Z) (debuggedTabs : gmap Z debug_state)
  : gmap Z debug_state :=
  if bool_decide (is_Some (debuggedTabs !! tabId)) then delete tabId debuggedTabs
  else debuggedTabs.

(** [!state || Date.now() - state.timestamp > 300000] *)
Definition needsSetup (state : option debug_state) (now : Z) : bool :=
  match state with
  | None => true
  | Some st => 300000 <? now - timestamp st
  end.

(** [checkTabDebugNeeds], called at the time [now]. *)
Definition checkTabDebugNeeds (tabId : Z) (now : Z) (debuggedTabs : gmap Z debug_state)
  : needs :=
  let state := debuggedTabs !! tabId in
  {| needsDebugger := needsSetup state now
                      || match state with Some st => negb (hasDebugger st) | None => true end;
     needsViewport := needsSetup state now
                      || match state with Some st => negb (hasViewport st) | None => true end |}.

Section Verified.

Context {H : Type} `{DebuggerHost H}.

(** [checkActualDebuggerStatus]: never throws. *)
Definition checkActualDebuggerStatus (tabId : Z) (h : H) : H * bool :=
  match getTargets h with
  | (h', Some targets) =>
    (h', existsb (λ t, bool_decide (t_tabId t = Some tabId) && t_attached t) targets)
  | (h', None) => (h', false)
  end.

(** [checkTabDebugNeedsWithVerification], called at the time [now]: the
    host is asked only when the entry says a debugger is attached, and
    the entry is dropped when the host denies it. *)
Definition checkTabDebugNeedsWithVerification (tabId : Z) (now : Z) (h : H)
    (debuggedTabs : gmap Z debug_state) : H * gmap Z debug_state * needs :=
  let state := debuggedTabs !! tabId in
  let '(h1, m1, actuallyAttached) :=
    match state with
    | Some st =>
      if hasDebugger st then
        let (h', a) := checkActualDebuggerStatus tabId h in
        (h', if a then debuggedTabs else clearTabDebugState tabId debuggedTabs, a)
      else (h, debuggedTabs, false)
    | None => (h, debuggedTabs, false)
    end in
  (h1, m1,
   {| needsDebugger :=
        needsSetup state now
        || match state with Some st => negb (hasDebugger st) | None => true end
        || negb actuallyAttached;
      needsViewport :=
        needsSetup state now
        || match state with Some st => negb (hasViewport st) | None => true end |}).

(** X22.  The verified check answers that no debugger is needed only
    when the tab has an entry that is at most five minutes old and says
    so, and the host has just listed the tab as attached.  It asks for
    whatever the unverified check asks for, its answer about the
    viewport is the same, and the only change it makes to the map is to
    drop the tab's entry when the entry claims a debugger that the host
    denies. *)
Theorem verified_check_trusts_only_the_host (tabId now : Z) (h : H)
    (debuggedTabs : gmap Z debug_state) :
  let '(h1, m1, n) := checkTabDebugNeedsWithVerification tabId now h debuggedTabs in
  (needsDebugger n = false →
     snd (checkActualDebuggerStatus tabId h) = true
     ∧ ∃ st, debuggedTabs !! tabId = Some st ∧ hasDebugger st = true
             ∧ now - timestamp st ≤ 300000)
  ∧ (needsDebugger (checkTabDebugNeeds tabId now debuggedTabs) = true → needsDebugger n = true)
  ∧ needsViewport n = needsViewport (checkTabDebugNeeds tabId now debuggedTabs)
  ∧ (m1 = debuggedTabs
     ∨ (m1 = delete tabId debuggedTabs
        ∧ snd (checkActualDebuggerStatus tabId h) = false
        ∧ ∃ st, debuggedTabs !! tabId = Some st ∧ hasDebugger st = true)).
Proof.
  unfold checkTabDebugNeedsWithVerification, checkTabDebugNeeds, clearTabDebugState.
  destruct (debuggedTabs !! tabId) as [st|] eqn:E; simpl.
  - destruct (hasDebugger st) eqn:Hd; simpl.
    + destruct (checkActualDebuggerStatus tabId h) as [h' [|]]; simpl.
      * rewrite !orb_false_r. split_and!; try done; [|by left].
        intros Hn. split; [done|]. exists st. split_and!; try done.
        by apply Z.ltb_ge in Hn.
      * rewrite !orb_true_r. split_and!; try done.
        right. split_and!; try done. by exists st.
    + rewrite !orb_true_r. split_and!; try done. by left.
  - split_and!; try done. by left.
Qed.

End Verified.

(** X23.  An entry written by [setTabDebugState] is honoured by
    [checkTabDebugNeeds] for five minutes: until then the check asks for
    exactly what the entry lacks, afterwards it asks for both the
    debugger and the viewport, as it does once the entry is cleared; and
    writing or clearing the entry of one tab does not change the answer
    for another. *)
Theorem debug_state_is_honoured_for_five_minutes (tabId : Z) (d v : bool) (now later : Z)
    (debuggedTabs : gmap Z debug_state) :
  let m := setTabDebugState tabId d v now debuggedTabs in
  (later - now ≤ 300000 →
     checkTabDebugNeeds tabId later m = {| needsDebugger := negb d; needsViewport := negb v |})
  ∧ (300000 < later - now →
     checkTabDebugNeeds tabId later m = {| needsDebugger := true; needsViewport := true |})
  ∧ checkTabDebugNeeds tabId later (clearTabDebugState tabId m)
    = {| needsDebugger := true; needsViewport := true |}
  ∧ (∀ other, other ≠ tabId →
       checkTabDebugNeeds other later m = checkTabDebugNeeds other later debuggedTabs
       ∧ checkTabDebugNeeds other later (clearTabDebugState tabId debuggedTabs)
         = checkTabDebugNeeds other later debuggedTabs).
Proof.
  intros m. unfold m, setTabDebugState, clearTabDebugState, checkTabDebugNeeds.
  split_and!.
  - intros Hl. rewrite lookup_insert_eq. simpl.
    by rewrite (proj2 (Z.ltb_ge _ _) Hl).
  - intros Hl. rewrite lookup_insert_eq. simpl.
    by rewrite (proj2 (Z.ltb_lt _ _) Hl).
  - rewrite lookup_insert_eq. rewrite bool_decide_eq_true_2 by by eexists.
    by rewrite lookup_delete_eq.
  - intros other Hne. rewrite lookup_insert_ne by done. split; [done|].
    case_bool_decide; [|done]. by rewrite lookup_delete_ne.
Qed.

End DebugState.

(** * [Number] applied to a string *)
Module JSNumber.

(** Strings are read as sequences of code units below 256. *)
Definition code (c : ascii) : nat := nat_of_ascii c.

Definition between (lo hi : nat) (c : ascii) : bool :=
  ((lo <=? code c) && (code c <=? hi))%nat.

Definition is_digit : ascii → bool := between 48 57.
Definition is_octal : ascii → bool := between 48 55.
Definition is_binary : ascii → bool := between 48 49.
Definition is_hex (c : ascii) : bool :=
  is_digit c || between 65 70 c || between 97 102 c.

(** White space and line terminators: TAB, LF, VT, FF, CR, SP, NBSP. *)
Definition is_space (c : ascii) : bool :=
  between 9 13 c || (code c =? 32)%nat || (code c =? 160)%nat.

Definition is_one_of (a b : ascii) (c : ascii) : bool :=
  Ascii.eqb c a || Ascii.eqb c b.

Fixpoint span (p : ascii → bool) (l : list ascii) : list ascii * list ascii :=
  match l with
  | c :: l' =>
    if p c then let (a, b) := span p l' in (c :: a, b) else ([], l)
  | [] => ([], [])
  end.

Definition trim (l : list ascii) : list ascii :=
  rev (snd (span is_space (rev (snd (span is_space l))))).

Definition is_nil (l : list ascii) : bool :=
  match l with [] => true | _ => false end.

Definition all_of (p : ascii → bool) (l : list ascii) : bool :=
  negb (is_nil l) && forallb p l.

Definition drop_sign (l : list ascii) : list ascii :=
  match l with
  | c :: l' => if is_one_of "+" "-" c then l' else l
  | [] => []
  end.

(** ExponentPart, optional. *)
Definition exponent_ok (l : list ascii) : bool :=
  match l with
  | [] => true
  | c :: l' => is_one_of "e" "E" c && all_of is_digit (drop_sign l')
  end.

(** StrUnsignedDecimalLiteral. *)
Definition unsigned_decimal (l : list ascii) : bool :=
  if bool_decide (l = list_ascii_of_string "Infinity") then true
  else
    let (d1, r1) := span is_digit l in
    match r1 with
    | c :: r2 =>
      if Ascii.eqb c "." then
        let (d2, r3) := span is_digit r2 in
        negb (is_nil d1 && is_nil d2) && exponent_ok r3
      else negb (is_nil d1) && exponent_ok r1
    | [] => negb (is_nil d1)
    end.

(** NonDecimalIntegerLiteral. *)
Definition non_decimal (l : list ascii) : bool :=
  match l with
  | z :: c :: r =>
    Ascii.eqb z "0" &&
    ((is_one_of "x" "X" c && all_of is_hex r)
     || (is_one_of "o" "O" c && all_of is_octal r)
     || (is_one_of "b" "B" c && all_of is_binary r))
  | _ => false
  end.

(** StringNumericLiteral: the strings [Number] does not map to NaN. *)
Definition is_numeric (s : string) : bool :=
  let l := trim (list_ascii_of_string s) in
  is_nil l || unsigned_decimal (drop_sign l) && negb (is_nil (drop_sign l)) || non_decimal l.

(** A number value, kept as the literal that denotes it. *)
Inductive number :=
| NaN
| Num (literal : string).

Definition Number (s : string) : number :=
  if is_numeric s then Num (string_of_list_ascii (trim (list_ascii_of_string s))) else NaN.

Definition isNaN (n : number) : bool :=
  match n with NaN => true | Num _ => false end.

(** [s.split(sep)] for a one-character separator. *)
Fixpoint split_go (sep : ascii) (cur : list ascii) (l : list ascii) : list string :=
  match l with
  | [] => [string_of_list_ascii (rev cur)]
  | c :: l' =>
    if Ascii.eqb c sep then string_of_list_ascii (rev cur) :: split_go sep [] l'
    else split_go sep (c :: cur) l'
  end.

Definition split (sep : ascii) (s : string) : list string :=
  split_go sep [] (list_ascii_of_string s).

Example Number_examples :
  map (λ s, isNaN (Number s))
    ["500"; " 12.5 "; "-3"; "1e3"; "0x1F"; ""; "."; "abc"; "def"; "1,2"; "+"; "12px"; "Infinity"; "1_0"]
  = [false; false; false; false; false; false; true; true; true; true; true; true; false; true].
Proof. vm_compute. reflexivity. Qed.

Example split_examples :
  (split "," "500,300", split "," "abc,def", split "," "7", split "," "", split "," "1,2,3")
  = (["500"; "300"], ["abc"; "def"], ["7"], [""], ["1"; "2"; "3"]).
Proof. vm_compute. reflexivity. Qed.

(** ** Decimal digit strings *)

Lemma digit_is_plain (c : ascii) :
  is_digit c = true →
  is_space c = false ∧ is_one_of "+" "-" c = false ∧ Ascii.eqb c "," = false
  ∧ Ascii.eqb c "I" = false.
Proof.
  destruct c as [[] [] [] [] [] [] [] []]; vm_compute; intros Hd;
    first [discriminate Hd | by split_and!].
Qed.

Lemma span_all (p : ascii → bool) (l : list ascii) :
  forallb p l = true → span p l = (l, []).
Proof.
  induction l as [|c l IH]; simpl; [done|].
  intros [Hc Hl]%andb_true_iff. by rewrite Hc, IH.
Qed.

Lemma span_none (p : ascii → bool) (l : list ascii) :
  match l with c :: _ => p c = false | [] => True end → span p l = ([], l).
Proof. destruct l as [|c l]; simpl; [done|]. by intros ->. Qed.

Lemma forallb_rev (p : ascii → bool) (l : list ascii) :
  forallb p l = true → forallb p (rev l) = true.
Proof.
  rewrite !forallb_forall. intros Hl c Hc. apply Hl. by apply in_rev.
Qed.

Lemma trim_digits (l : list ascii) : forallb is_digit l = true → trim l = l.
Proof.
  intros Hl. unfold trim.
  assert (Hhead : ∀ l', forallb is_digit l' = true →
            match l' with c :: _ => is_space c = false | [] => True end).
  { intros [|c l'] H; [done|]. simpl in H. apply andb_true_iff in H as [Hc _].
    by apply digit_is_plain in Hc as [? _]. }
  rewrite (span_none is_space l) by by apply Hhead. simpl.
  rewrite (span_none is_space (rev l)) by by apply Hhead, forallb_rev.
  simpl. apply rev_involutive.
Qed.

Lemma list_ascii_of_string_app (s1 s2 : string) :
  list_ascii_of_string (s1 +:+ s2) = list_ascii_of_string s1 ++ list_ascii_of_string s2.
Proof. induction s1 as [|c s1 IH]; simpl; [done|]. by rewrite IH. Qed.

(** [Number] maps a non-empty string of decimal digits to the number it
    denotes. *)
Lemma Number_digits (s : string) :
  all_of is_digit (list_ascii_of_string s) = true → Number s = Num s.
Proof.
  unfold all_of. intros [Hne Hl]%andb_true_iff.
  unfold Number, is_numeric. rewrite trim_digits by done.
  rewrite string_of_list_ascii_of_string.
  destruct (list_ascii_of_string s) as [|c l] eqn:E; [done|]. simpl in Hl.
  apply andb_true_iff in Hl as [Hc Hl].
  destruct (digit_is_plain c Hc) as (_ & Hsign & _ & HI).
  simpl. rewrite Hsign. simpl.
  assert (unsigned_decimal (c :: l) = true) as ->; [|done].
  unfold unsigned_decimal. rewrite bool_decide_eq_false_2.
  - rewrite span_all by (simpl; by rewrite Hc, Hl). done.
  - simpl. intros [= -> _]. done.
Qed.

Lemma split_go_plain (sep : ascii) (l : list ascii) :
  forallb (λ c, negb (Ascii.eqb c sep)) l = true →
  ∀ cur rest, split_go sep cur (l ++ rest) = split_go sep (rev l ++ cur) rest.
Proof.
  induction l as [|c l IH]; simpl; [done|].
  intros [Hc Hl]%andb_true_iff cur rest. apply negb_true_iff in Hc. rewrite Hc.
  rewrite IH by done. by rewrite <- app_assoc.
Qed.

(** A string of two parts without commas splits into these parts. *)
Lemma split_pair (xs ys : string) :
  forallb (λ c, negb (Ascii.eqb c ",")) (list_ascii_of_string xs) = true →
  forallb (λ c, negb (Ascii.eqb c ",")) (list_ascii_of_string ys) = true →
  split "," (xs +:+ "," +:+ ys) = [xs; ys].
Proof.
  intros Hx Hy. unfold split. rewrite list_ascii_of_string_app. simpl.
  rewrite split_go_plain by done. simpl. rewrite app_nil_r, rev_involutive.
  rewrite string_of_list_ascii_of_string. change (String.append "" ys) with ys.
  rewrite <- (app_nil_r (list_ascii_of_string ys)), split_go_plain by done. simpl.
  by rewrite app_nil_r, rev_involutive, string_of_list_ascii_of_string.
Qed.

Lemma digits_have_no_comma (l : list ascii) :
  forallb is_digit l = true → forallb (λ c, negb (Ascii.eqb c ",")) l = true.
Proof.
  rewrite !forallb_forall. intros Hl c Hc.
  destruct (digit_is_plain c (Hl c Hc)) as (_ & _ & -> & _). done.
Qed.

End JSNumber.

(** * The coordinator: [performClick] and [waitForTabOperationComplete] *)
Module Coordinator.

Import TabService JSNumber.

(** Calls made to the host's input and visualisation channels. *)
Inductive host_call :=
| Visualize (tabId : Z) (x y : number)
| DispatchMouseEvent (tabId : Z) (type : string) (x y : number).

(** The module-level variables of the tab service and of the debugger
    service, and the calls made to the host so far (oldest first). *)
Record ext := {
  activeTabId : option Z;
  openedTabIds : gset Z;
  tabProcessingStates : gmap Z TabProcessingState;
  debugTarget : option Z;
  waitingForNewTab : bool;
  hostCalls : list host_call
}.

Definition getActiveTabId (g : ext) : option Z :=
  match activeTabId g with
  | Some a => if negb (a =? 0) && bool_decide (a ∈ openedTabIds g) then Some a else None
  | None => None
  end.

Definition with_active (a : option Z) (g : ext) : ext :=
  {| activeTabId := a; openedTabIds := openedTabIds g;
     tabProcessingStates := tabProcessingStates g; debugTarget := debugTarget g;
     waitingForNewTab := waitingForNewTab g; hostCalls := hostCalls g |}.

Definition with_opened (o : gset Z) (g : ext) : ext :=
  {| activeTabId := activeTabId g; openedTabIds := o;
     tabProcessingStates := tabProcessingStates g; debugTarget := debugTarget g;
     waitingForNewTab := waitingForNewTab g; hostCalls := hostCalls g |}.

Definition with_states (m : gmap Z TabProcessingState) (g : ext) : ext :=
  {| activeTabId := activeTabId g; openedTabIds := openedTabIds g;
     tabProcessingStates := m; debugTarget := debugTarget g;
     waitingForNewTab := waitingForNewTab g; hostCalls := hostCalls g |}.

Definition call_host (c : list host_call) (g : ext) : ext :=
  {| activeTabId := activeTabId g; openedTabIds := openedTabIds g;
     tabProcessingStates := tabProcessingStates g; debugTarget := debugTarget g;
     waitingForNewTab := waitingForNewTab g; hostCalls := hostCalls g ++ c |}.

Definition setActiveTabId (tabId : Z) (g : ext) : ext :=
  if negb (tabId =? 0) && bool_decide (tabId ∈ openedTabIds g)
  then with_active (Some tabId) g else g.

Definition set_state (tabId : Z) (s : TabProcessingState) (g : ext) : ext :=
  with_states (<[tabId := s]> (tabProcessingStates g)) g.

(** ** [performClick] *)

Inductive click_error :=
| NoActiveTab
| InvalidCoordinate (coordinateString : string)
| NotAttached (tabId : Z)
| ClickFailed.

(** How the host answers the calls of one click. *)
Record click_host := {
  pressed_ok : bool;     (* Input.dispatchMouseEvent mousePressed resolves *)
  released_ok : bool     (* Input.dispatchMouseEvent mouseReleased resolves *)
}.

(** The first two elements of the array pattern; a missing element is
    [undefined], which [isNaN] maps to true. *)
Definition element (i : nat) (l : list number) : number := nth i l NaN.

(** The pointer animation is started first; whether it succeeds, fails
    or times out, the two mouse events are dispatched after it. *)
Definition performClick (hst : click_host) (coordinateString : string) (g : ext)
  : ext * option click_error :=
  match getActiveTabId g with
  | None => (g, Some NoActiveTab)
  | Some tabId =>
    let parts := map Number (split "," coordinateString) in
    let cssX := element 0 parts in
    let cssY := element 1 parts in
    if isNaN cssX || isNaN cssY then (g, Some (InvalidCoordinate coordinateString))
    else if negb (bool_decide (debugTarget g = Some tabId)) then (g, Some (NotAttached tabId))
    else
      let g1 := call_host [Visualize tabId cssX cssY] g in
      let g2 := call_host [DispatchMouseEvent tabId "mousePressed" cssX cssY] g1 in
      if negb (pressed_ok hst) then (g2, Some ClickFailed)
      else
        let g3 := call_host [DispatchMouseEvent tabId "mouseReleased" cssX cssY] g2 in
        if negb (released_ok hst) then (g3, Some ClickFailed) else (g3, None)
  end.

(** ** [waitForTabOperationComplete] as a state machine *)

Inductive phase := Running | Returned | Threw.

(** A call of [resolve] or [reject] of the returned promise. *)
Inductive settle :=
| OperationError                        (* reject(operationError) *)
| TabResult (tab : option Z) (ok : bool). (* from processNewTab / processActiveTab *)

(** The variables of one invocation, with the globals. *)
Record race := {
  globals : ext;
  initialActiveTabId : Z;
  tabsBeforeOperation : gset Z;
  newTabDetected : bool;
  navigationHandled : bool;
  fastDetectionTimer : bool;   (* the variable holds a timer *)
  fastArmed : bool;            (* that timer can still fire *)
  longWaitTimer : bool;
  longArmed : bool;
  listening : bool;            (* tabActivatedHandler is registered *)
  operation : phase;
  lookups : list Z;            (* chrome.tabs.get promises of the handler, in flight *)
  processed : list (option Z * bool);   (* calls of processTabCore: tab, isNewTab *)
  running : list (option Z * bool);     (* those that have not finished *)
  settles : list settle
}.

(** The synchronous start of an invocation on the active tab [a], up to
    the call of the operation. *)
Definition begin (a : Z) (g : ext) : race :=
  {| globals := set_state a NAVIGATION_PENDING g;
     initialActiveTabId := a;
     tabsBeforeOperation := openedTabIds g;
     newTabDetected := false; navigationHandled := false;
     fastDetectionTimer := false; fastArmed := false;
     longWaitTimer := false; longArmed := false;
     listening := true; operation := Running;
     lookups := []; processed := []; running := []; settles := [] |}.

(** [None] when the invocation throws for want of an active tab. *)
Definition start (g : ext) : option race :=
  match getActiveTabId g with
  | None => None
  | Some a => Some (begin a g)
  end.

Inductive event :=
| EvActivated (tabId : Z)                 (* chrome.tabs.onActivated *)
| EvLookup (tabId : Z) (opener : option (option Z))
                                          (* tabs.get settles; None: it rejects *)
| EvOperationReturned
| EvOperationThrew
| EvFastTimer
| EvLongTimer
| EvCoreDone (ok : bool).                 (* the oldest running processTabCore ends *)

Definition upd_globals (f : ext → ext) (r : race) : race :=
  {| globals := f (globals r); initialActiveTabId := initialActiveTabId r;
     tabsBeforeOperation := tabsBeforeOperation r;
     newTabDetected := newTabDetected r; navigationHandled := navigationHandled r;
     fastDetectionTimer := fastDetectionTimer r; fastArmed := fastArmed r;
     longWaitTimer := longWaitTimer r; longArmed := longArmed r;
     listening := listening r; operation := operation r;
     lookups := lookups r; processed := processed r; running := running r;
     settles := settles r |}.

Definition set_newTabDetected (r : race) : race :=
  {| globals := globals r; initialActiveTabId := initialActiveTabId r;
     tabsBeforeOperation := tabsBeforeOperation r;
     newTabDetected := true; navigationHandled := navigationHandled r;
     fastDetectionTimer := fastDetectionTimer r; fastArmed := fastArmed r;
     longWaitTimer := longWaitTimer r; longArmed := longArmed r;
     listening := listening r; operation := operation r;
     lookups := lookups r; processed := processed r; running := running r;
     settles := settles r |}.

Definition set_navigationHandled (r : race) : race :=
  {| globals := globals r; initialActiveTabId := initialActiveTabId r;
     tabsBeforeOperation := tabsBeforeOperation r;
     newTabDetected := newTabDetected r; navigationHandled := true;
     fastDetectionTimer := fastDetectionTimer r; fastArmed := fastArmed r;
     longWaitTimer := longWaitTimer r; longArmed := longArmed r;
     listening := listening r; operation := operation r;
     lookups := lookups r; processed := processed r; running := running r;
     settles := settles r |}.

(** The two timers: the variable that holds the handle, and whether the
    timer can still fire. *)
Definition set_fast (var armed : bool) (r : race) : race :=
  {| globals := globals r; initialActiveTabId := initialActiveTabId r;
     tabsBeforeOperation := tabsBeforeOperation r;
     newTabDetected := newTabDetected r; navigationHandled := navigationHandled r;
     fastDetectionTimer := var; fastArmed := armed;
     longWaitTimer := longWaitTimer r; longArmed := longArmed r;
     listening := listening r; operation := operation r;
     lookups := lookups r; processed := processed r; running := running r;
     settles := settles r |}.

Definition set_long (var armed : bool) (r : race) : race :=
  {| globals := globals r; initialActiveTabId := initialActiveTabId r;
     tabsBeforeOperation := tabsBeforeOperation r;
     newTabDetected := newTabDetected r; navigationHandled := navigationHandled r;
     fastDetectionTimer := fastDetectionTimer r; fastArmed := fastArmed r;
     longWaitTimer := var; longArmed := armed;
     listening := listening r; operation := operation r;
     lookups := lookups r; processed := processed r; running := running r;
     settles := settles r |}.

(** [if (t) { clearTimeout(t); t = null }] *)
Definition clear_fast (r : race) : race :=
  if fastDetectionTimer r then set_fast false false r else r.

Definition clear_long (r : race) : race :=
  if longWaitTimer r then set_long false false r else r.

(** [removeTabEventListener("tabActivated", tabActivatedHandler)] *)
Definition unlisten (r : race) : race :=
  {| globals := globals r; initialActiveTabId := initialActiveTabId r;
     tabsBeforeOperation := tabsBeforeOperation r;
     newTabDetected := newTabDetected r; navigationHandled := navigationHandled r;
     fastDetectionTimer := fastDetectionTimer r; fastArmed := fastArmed r;
     longWaitTimer := longWaitTimer r; longArmed := longArmed r;
     listening := false; operation := operation r;
     lookups := lookups r; processed := processed r; running := running r;
     settles := settles r |}.

Definition with_lookups (l : list Z) (r : race) : race :=
  {| globals := globals r; initialActiveTabId := initialActiveTabId r;
     tabsBeforeOperation := tabsBeforeOperation r;
     newTabDetected := newTabDetected r; navigationHandled := navigationHandled r;
     fastDetectionTimer := fastDetectionTimer r; fastArmed := fastArmed r;
     longWaitTimer := longWaitTimer r; longArmed := longArmed r;
     listening := listening r; operation := operation r;
     lookups := l; processed := processed r; running := running r;
     settles := settles r |}.

(** A call of [processNewTab] or [processActiveTab]: [processTabCore]
    starts on [tab]. *)
Definition process (tab : option Z) (isNewTab : bool) (r : race) : race :=
  {| globals := globals r; initialActiveTabId := initialActiveTabId r;
     tabsBeforeOperation := tabsBeforeOperation r;
     newTabDetected := newTabDetected r; navigationHandled := navigationHandled r;
     fastDetectionTimer := fastDetectionTimer r; fastArmed := fastArmed r;
     longWaitTimer := longWaitTimer r; longArmed := longArmed r;
     listening := listening r; operation := operation r;
     lookups := lookups r; processed := processed r ++ [(tab, isNewTab)];
     running := running r ++ [(tab, isNewTab)]; settles := settles r |}.

(** The listener of [chrome.tabs.onActivated], before it triggers the
    ["tabActivated"] event. *)
Definition onActivated (tabId : Z) (g : ext) : ext :=
  if waitingForNewTab g && negb (bool_decide (tabId ∈ openedTabIds g))
  then setActiveTabId tabId (with_opened ({[tabId]} ∪ openedTabIds g) g)
  else if bool_decide (tabId ∈ openedTabIds g) then setActiveTabId tabId g
  else g.

(** [tabActivatedHandler], up to its call of [chrome.tabs.get]. *)
Definition tabActivatedHandler (tabId : Z) (r : race) : race :=
  if navigationHandled r then r
  else if bool_decide (tabId ∈ tabsBeforeOperation r) then r
  else
    let r1 := clear_fast (set_newTabDetected r) in
    let track (g : ext) :=
      if bool_decide (tabId ∈ openedTabIds g) then g
      else setActiveTabId tabId (with_opened ({[tabId]} ∪ openedTabIds g) g) in
    with_lookups (lookups r1 ++ [tabId]) (upd_globals track r1).

Fixpoint remove_first (x : Z) (l : list Z) : list Z :=
  match l with
  | [] => []
  | y :: l' => if x =? y then l' else y :: remove_first x l'
  end.

(** The [then] callback of the handler's [chrome.tabs.get]. *)
Definition lookup_done (tabId : Z) (opener : option Z) (r : race) : race :=
  if (bool_decide (opener = Some (initialActiveTabId r)) || negb (truthy_id opener))
     && negb (navigationHandled r)
  then process (Some tabId) true (clear_long (unlisten (set_navigationHandled r)))
  else r.

(** After [await operationFn()]: both timers are set. *)
Definition operation_returned (r : race) : race :=
  let r1 := set_long true true (set_fast true true r) in
  {| globals := globals r1; initialActiveTabId := initialActiveTabId r1;
     tabsBeforeOperation := tabsBeforeOperation r1;
     newTabDetected := newTabDetected r1; navigationHandled := navigationHandled r1;
     fastDetectionTimer := fastDetectionTimer r1; fastArmed := fastArmed r1;
     longWaitTimer := longWaitTimer r1; longArmed := longArmed r1;
     listening := listening r1; operation := Returned;
     lookups := lookups r1; processed := processed r1; running := running r1;
     settles := settles r1 |}.

(** The [catch] block around the operation: the listener is removed,
    timers that are set are cleared, the state of the initial tab is
    reset and the promise is rejected. *)
Definition operation_threw (r : race) : race :=
  let r1 := unlisten r in
  let r2 := if fastDetectionTimer r1 then set_fast (fastDetectionTimer r1) false r1 else r1 in
  let r3 := if longWaitTimer r2 then set_long (longWaitTimer r2) false r2 else r2 in
  let r4 := upd_globals (set_state (initialActiveTabId r3) IDLE) r3 in
  {| globals := globals r4; initialActiveTabId := initialActiveTabId r4;
     tabsBeforeOperation := tabsBeforeOperation r4;
     newTabDetected := newTabDetected r4; navigationHandled := navigationHandled r4;
     fastDetectionTimer := fastDetectionTimer r4; fastArmed := fastArmed r4;
     longWaitTimer := longWaitTimer r4; longArmed := longArmed r4;
     listening := listening r4; operation := Threw;
     lookups := lookups r4; processed := processed r4; running := running r4;
     settles := settles r4 ++ [OperationError] |}.

(** The callback of the 500 ms timer; the timer that runs can no longer
    fire, its handle stays in the variable. *)
Definition fast_timer (r : race) : race :=
  let r := set_fast (fastDetectionTimer r) false r in
  if newTabDetected r then r
  else
    let r := unlisten r in
    if navigationHandled r then r
    else process (Some (initialActiveTabId r)) false (clear_long (set_navigationHandled r)).

(** The callback of the 5 s timer. *)
Definition long_timer (r : race) : race :=
  let r := set_long (longWaitTimer r) false r in
  if navigationHandled r then r
  else
    let r := clear_fast (unlisten r) in
    let finalTabId :=
      if newTabDetected r then getActiveTabId (globals r)
      else Some (initialActiveTabId r) in
    process finalTabId false (set_navigationHandled r).

(** [processNewTab] / [processActiveTab] after [processTabCore]: the
    promise is resolved with the result, or the tab's state is reset and
    the promise is rejected.  (A reset under the key [null] is not
    recorded.) *)
Definition core_done (ok : bool) (r : race) : race :=
  match running r with
  | [] => r
  | (tab, isNewTab) :: rest =>
    let reset (g : ext) :=
      if ok then g
      else match tab with Some t => set_state t IDLE g | None => g end in
    let r1 := upd_globals reset r in
    {| globals := globals r1; initialActiveTabId := initialActiveTabId r1;
       tabsBeforeOperation := tabsBeforeOperation r1;
       newTabDetected := newTabDetected r1; navigationHandled := navigationHandled r1;
       fastDetectionTimer := fastDetectionTimer r1; fastArmed := fastArmed r1;
       longWaitTimer := longWaitTimer r1; longArmed := longArmed r1;
       listening := listening r1; operation := operation r1;
       lookups := lookups r1; processed := processed r1; running := rest;
       settles := settles r1 ++ [TabResult tab ok] |}
  end.

(** One turn of the event loop.  An event that cannot happen in the
    state (a timer that is not armed, a lookup that was not issued, an
    operation that has already ended) changes nothing. *)
Definition step (r : race) (e : event) : race :=
  match e with
  | EvActivated tabId =>
    let r1 := upd_globals (onActivated tabId) r in
    if listening r1 then tabActivatedHandler tabId r1 else r1
  | EvLookup tabId opener =>
    if bool_decide (tabId ∈ lookups r) then
      let r1 := with_lookups (remove_first tabId (lookups r)) r in
      match opener with
      | Some o => lookup_done tabId o r1
      | None => r1
      end
    else r
  | EvOperationReturned =>
    match operation r with Running => operation_returned r | _ => r end
  | EvOperationThrew =>
    match operation r with Running => operation_threw r | _ => r end
  | EvFastTimer => if fastArmed r then fast_timer r else r
  | EvLongTimer => if longArmed r then long_timer r else r
  | EvCoreDone ok => core_done ok r
  end.

Definition run (r : race) (evs : list event) : race := fold_left step evs r.

Definition tab_results (l : list settle) : list (option Z * bool) :=
  omap (λ s, match s with TabResult t ok => Some (t, ok) | OperationError => None end) l.

(** ** The commit flag *)

(** Where a tab passed to [processTabCore] comes from: the initial tab
    (fast timer, or long timer when no new tab was seen), a newly
    activated tab that was not tracked before the operation, or the
    active tab as the long timer finds it after a new tab was seen. *)
Definition origin (r : race) (tab : option Z) (isNewTab : bool) : Prop :=
  (tab = Some (initialActiveTabId r) ∧ isNewTab = false)
  ∨ (isNewTab = true ∧ ∃ t, tab = Some t ∧ t ∉ tabsBeforeOperation r)
  ∨ (isNewTab = false ∧ newTabDetected r = true).

Record RaceInv (r : race) : Prop := {
  inv_none : navigationHandled r = false → processed r = [];
  inv_one : navigationHandled r = true → List.length (processed r) = 1%nat;
  inv_long : operation r = Returned → navigationHandled r = false → longArmed r = true;
  inv_results :
    (List.length (tab_results (settles r)) + List.length (running r) = List.length (processed r))%nat;
  inv_lookups : ∀ t, t ∈ lookups r → t ∉ tabsBeforeOperation r;
  inv_origin : ∀ tab isNewTab, (tab, isNewTab) ∈ processed r → origin r tab isNewTab
}.

Lemma RaceInv_start (g : ext) (r : race) : start g = Some r → RaceInv r.
Proof.
  unfold start, begin. destruct (getActiveTabId g); [|done]. intros [= <-].
  split; simpl; try done.
  - intros t Ht. by apply elem_of_nil in Ht.
  - intros tab isNew Ht. by apply elem_of_nil in Ht.
Qed.

Lemma elem_of_remove_first (x t : Z) (l : list Z) :
  t ∈ remove_first x l → t ∈ l.
Proof.
  induction l as [|y l IH]; simpl; [done|].
  destruct (x =? y); intros Ht; [by right|].
  apply elem_of_cons in Ht as [->|Ht]; [left | right; by apply IH].
Qed.

Lemma tab_results_snoc (l : list settle) (x : settle) :
  tab_results (l ++ [x]) = tab_results l ++ tab_results [x].
Proof. apply omap_app. Qed.

Ltac crush_inv :=
  repeat match goal with
         | |- context [if ?b then _ else _] => destruct b eqn:?
         | |- context [match ?o with Some _ => _ | None => _ end] => destruct o eqn:?
         end;
  simpl in *; try done.

Lemma RaceInv_step (r : race) (e : event) : RaceInv r → RaceInv (step r e).
Proof.
  intros [H1 H2 H3 H4 H5 H6].
  destruct r as [g a before ntd handled fv fa lv la lis op lk pr rn st].
  simpl in *. destruct e as [tabId|tabId opener| | | | |ok]; simpl.
  - (* a tab is activated *)
    unfold tabActivatedHandler, clear_fast; simpl.
    destruct lis; [|by split]. destruct handled; [by split|]. simpl.
    case_bool_decide as Hin; [by split|].
    destruct fv; simpl; (split; simpl; try done;
      [ intros t Ht; apply elem_of_app in Ht as [Ht|Ht]; [by apply H5|];
        by apply list_elem_of_singleton in Ht as ->
      | intros tab isNew Ht; rewrite (H1 eq_refl) in Ht; by apply elem_of_nil in Ht ]).
  - (* a lookup of the handler settles *)
    case_bool_decide as Hlk; [|by split]. pose proof (H5 _ Hlk) as Hnew.
    assert (Hsub : ∀ t, t ∈ remove_first tabId lk → t ∉ before).
    { intros t Ht. by apply H5, (elem_of_remove_first tabId). }
    destruct opener as [o|]; [|by split]. unfold lookup_done, clear_long; simpl.
    destruct handled; simpl.
    { rewrite andb_false_r. by split. }
    rewrite andb_true_r. destruct (_ || _); [|by split].
    rewrite (H1 eq_refl) in *. simpl in *.
    destruct lv; simpl; (split; simpl; try done;
      [ rewrite length_app; simpl; lia
      | intros tab isNew Ht; apply list_elem_of_singleton in Ht as [= -> ->];
        right; left; eauto ]).
  - (* the operation returns *)
    destruct op; by split.
  - (* the operation throws *)
    destruct op; [|by split..]. unfold operation_threw; simpl.
    destruct fv, lv; simpl; (split; simpl; try done;
      rewrite tab_results_snoc; simpl; by rewrite app_nil_r).
  - (* the fast timer fires *)
    destruct fa; [|by split]. unfold fast_timer, clear_long; simpl.
    destruct ntd; [by split|]. destruct handled; [by split|]. simpl.
    rewrite (H1 eq_refl) in *. simpl in *.
    destruct lv; simpl; (split; simpl; try done;
      [ rewrite length_app; simpl; lia
      | intros tab isNew Ht; apply list_elem_of_singleton in Ht as [= -> ->];
        by left ]).
  - (* the long timer fires *)
    destruct la; [|by split]. unfold long_timer, clear_fast; simpl.
    destruct handled; simpl.
    { split; simpl; try done. }
    rewrite (H1 eq_refl) in *. simpl in *.
    destruct fv, ntd; simpl; (split; simpl; try done;
      [ rewrite length_app; simpl; lia
      | intros tab isNew Ht; apply list_elem_of_singleton in Ht as [= -> ->];
        first [by left | by right; right] ]).
  - (* a processTabCore ends *)
    unfold core_done; simpl. destruct rn as [|[tab isNew] rest]; [by split|].
    split; simpl; try done.
    rewrite tab_results_snoc, length_app. simpl in *. lia.
Qed.

Lemma RaceInv_run (evs : list event) : ∀ r, RaceInv r → RaceInv (run r evs).
Proof.
  induction evs as [|e evs IH]; intros r HI; simpl; [done|].
  apply IH, RaceInv_step, HI.
Qed.

(** Once the flag is set no event starts another [processTabCore]. *)
Lemma committed_is_final (r : race) (e : event) :
  navigationHandled r = true → processed (step r e) = processed r.
Proof.
  intros Hh. destruct r as [g a before ntd handled fv fa lv la lis op lk pr rn st].
  simpl in Hh. subst handled.
  destruct e as [tabId|tabId opener| | | | |ok]; simpl.
  - unfold tabActivatedHandler. simpl. by destruct lis.
  - case_bool_decide; [|done]. destruct opener; [|done].
    unfold lookup_done. simpl. by rewrite andb_false_r.
  - by destruct op.
  - destruct op; try done. unfold operation_threw. simpl. by destruct fv, lv.
  - destruct fa; [|done]. unfold fast_timer. simpl. by destruct ntd.
  - by destruct la.
  - unfold core_done. simpl. by destruct rn as [|[??]?].
Qed.

(** ** A click command *)

(** [handleClickCommand] once the busy-wait guard is passed, on the
    globals [g] found then; [a] is the tab that was active when the
    command arrived.  [performClick] is taken as one step: what it does
    to the globals is applied before any other event; the events after
    it are left to [run]. *)
Definition click_after_guard (hst : click_host) (coordinateString : string) (a : Z)
    (g : ext) : race * option click_error :=
  let r0 := begin a g in
  let (g1, res) := performClick hst coordinateString (globals r0) in
  let r1 := upd_globals (λ _, g1) r0 in
  match res with
  | Some err => (step r1 EvOperationThrew, Some err)
  | None => (step r1 EvOperationReturned, None)
  end.

(** How a click command starts. *)
Inductive click_start :=
| NoTab                   (* the coordinator throws for want of an active tab *)
| Waits (a : Z)           (* [a] is busy: waitForTabProcessingComplete(a, 10000)
                             is awaited before anything else is done *)
| Attempted (r : race) (res : option click_error).
                          (* [a] is not busy: the operation is attempted at once *)

(** [handleClickCommand] up to the end of the operation or to the guard
    of [waitForTabOperationComplete], whichever comes first.  When the
    guard waits, the command goes on with [click_after_guard] on the
    globals that the other tasks and the wait have left when the wait
    returns. *)
Definition click_attempt (hst : click_host) (coordinateString : string) (g : ext)
  : click_start :=
  match getActiveTabId g with
  | None => NoTab
  | Some a =>
    if isTabProcessing (tabProcessingStates g) a then Waits a
    else
      let (r, res) := click_after_guard hst coordinateString a g in
      Attempted r res
  end.

(** What is left of a click that failed before any call to the host,
    started on the globals [g] for the tab [a]. *)
Definition failed_early (g : ext) (a : Z) (r : race) : Prop :=
  hostCalls (globals r) = hostCalls g
  ∧ tabProcessingStates (globals r) = <[a := IDLE]> (tabProcessingStates g)
  ∧ settles r = [OperationError]
  ∧ processed r = []
  ∧ fastArmed r = false ∧ longArmed r = false ∧ listening r = false.

(** Tab 7 is tracked, active, attached, and its last command completed. *)
Definition completed_tab : ext :=
  {| activeTabId := Some 7; openedTabIds := {[ 7 ]};
     tabProcessingStates := {[ 7 := COMPLETED ]}; debugTarget := Some 7;
     waitingForNewTab := false; hostCalls := [] |}.

Definition obliging_host : click_host := {| pressed_ok := true; released_ok := true |}.

(** C2, counterexample.  An invocation whose operation throws passes no
    tab at all to [processTabCore]; its promise is rejected with the
    operation's error. *)
Lemma C2_failed_operation_processes_no_tab :
  (λ r, (processed (run r [EvOperationThrew]), settles (run r [EvOperationThrew])))
    <$> start completed_tab
  = Some ([], [OperationError]).
Proof. vm_compute. reflexivity. Qed.

(** A new tab is activated and committed while the operation is still
    running, and the operation then throws: one tab is processed, and
    the promise is rejected by the operation's error before the tab's
    result arrives. *)
Example commit_then_operation_error :
  (λ r, let r' := run r [EvActivated 9; EvLookup 9 (Some (Some 7)); EvOperationThrew;
                         EvCoreDone true] in
        (processed r', settles r'))
    <$> start completed_tab
  = Some ([(Some 9, true)], [OperationError; TabResult (Some 9) true]).
Proof. vm_compute. reflexivity. Qed.

(** Tab 7 in the middle of an earlier command. *)
Definition stabilizing_tab : ext :=
  {| activeTabId := Some 7; openedTabIds := {[ 7 ]};
     tabProcessingStates := {[ 7 := STABILIZING ]}; debugTarget := Some 7;
     waitingForNewTab := false; hostCalls := [] |}.

(** C7, counterexample.  Tab 7 is in state [COMPLETED]; the click with
    the coordinate string "abc,def" fails with the coordinate error and
    makes no host call, and the state of tab 7 is [IDLE] afterwards. *)
Lemma C7_failed_click_resets_state :
  tabProcessingStates completed_tab !! 7 = Some COMPLETED ∧
  match click_attempt obliging_host "abc,def" completed_tab with
  | Attempted r res =>
    Some (res, tabProcessingStates (globals r) !! 7, hostCalls (globals r))
  | _ => None
  end
  = Some (Some (InvalidCoordinate "abc,def"), Some IDLE, []).
Proof. vm_compute. split; reflexivity. Qed.

(** On a busy tab the same click does not fail at once: the command
    waits for the tab first. *)
Example click_on_a_busy_tab_waits :
  click_attempt obliging_host "abc,def" stabilizing_tab = Waits 7.
Proof. vm_compute. reflexivity. Qed.

(** C7, as amended.  Let the first or the second comma-separated part of
    the coordinate string be one that [Number] maps to NaN (a missing
    part included), and let [a] be the active tab.  If [a] is not busy
    the click fails at once with the coordinate error; if [a] is busy
    the command first waits for it, and whenever the wait returns,
    whatever the globals are by then, the click fails then, with the
    coordinate error if a tab is active and with the no-active-tab error
    otherwise.  Either way the failure comes before any call to the
    host: no timer is set, no tab is processed, the promise is rejected
    with the operation's error, and the state of [a], set to
    [NAVIGATION_PENDING] for the attempt, is [IDLE] afterwards. *)
Theorem C7_invalid_coordinate_fails_early (hst : click_host) (coordinateString : string)
    (g : ext) (a : Z) :
  getActiveTabId g = Some a →
  isNaN (element 0 (map Number (split "," coordinateString)))
  || isNaN (element 1 (map Number (split "," coordinateString))) = true →
  (isTabProcessing (tabProcessingStates g) a = false →
     ∃ r, click_attempt hst coordinateString g
          = Attempted r (Some (InvalidCoordinate coordinateString))
       ∧ failed_early g a r)
  ∧ (isTabProcessing (tabProcessingStates g) a = true →
     click_attempt hst coordinateString g = Waits a)
  ∧ (∀ g1, ∃ r,
       click_after_guard hst coordinateString a g1
       = (r, Some (match getActiveTabId g1 with
                   | Some _ => InvalidCoordinate coordinateString
                   | None => NoActiveTab
                   end))
       ∧ failed_early g1 a r).
Proof.
  intros Ha Hnan.
  assert (Hafter : ∀ g1, ∃ r,
    click_after_guard hst coordinateString a g1
    = (r, Some (match getActiveTabId g1 with
                | Some _ => InvalidCoordinate coordinateString
                | None => NoActiveTab
                end))
    ∧ failed_early g1 a r).
  { intros g1. unfold click_after_guard, begin, performClick, failed_early. simpl.
    assert (getActiveTabId (set_state a NAVIGATION_PENDING g1) = getActiveTabId g1)
      as -> by done.
    destruct (getActiveTabId g1) as [a1|]; simpl.
    - rewrite Hnan. simpl. eexists. split; [reflexivity|]. simpl.
      split_and!; try done. apply insert_insert_eq.
    - eexists. split; [reflexivity|]. simpl.
      split_and!; try done. apply insert_insert_eq. }
  split_and!; [| |exact Hafter].
  - intros Hidle. unfold click_attempt. rewrite Ha, Hidle.
    destruct (Hafter g) as (r & Hr & Hf). rewrite Hr, Ha. by exists r.
  - intros Hbusy. unfold click_attempt. by rewrite Ha, Hbusy.
Qed.

(** C7, witness: the coordinate string "abc,def" on tab 7, which is not
    busy. *)
Lemma C7_invalid_coordinate_fails_early_witness :
  ∃ r, click_attempt obliging_host "abc,def" completed_tab
       = Attempted r (Some (InvalidCoordinate "abc,def"))
    ∧ hostCalls (globals r) = [].
Proof.
  destruct (C7_invalid_coordinate_fails_early obliging_host "abc,def" completed_tab 7)
    as [Hidle _].
  - reflexivity.
  - reflexivity.
  - destruct (Hidle eq_refl) as (r & Hr & Hc & _).
    exists r. split; [exact Hr | exact Hc].
Defined.

(** Strings that are not two numeric parts and are clicked all the same:
    parts after the second are ignored, and an empty part is 0. *)
Example lenient_coordinates :
  map (λ s, snd (performClick obliging_host s completed_tab)) ["1,2,3"; ","; "500,300"]
  = [None; None; None].
Proof. vm_compute. reflexivity. Qed.

(** ** What the phases of the operation allow *)

(** The timers exist only once the operation has returned; the listener
    is registered until a tab is committed or the operation throws; and
    as long as no new tab has been seen, no lookup is in flight and only
    the initial tab can have been processed. *)
Record PhaseInv (r : race) : Prop := {
  ph_timers : operation r ≠ Returned →
    fastDetectionTimer r = false ∧ fastArmed r = false
    ∧ longWaitTimer r = false ∧ longArmed r = false;
  ph_listen : listening r = false ↔ (navigationHandled r = true ∨ operation r = Threw);
  ph_new : newTabDetected r = false →
    lookups r = []
    ∧ ∀ entry, entry ∈ processed r → entry = (Some (initialActiveTabId r), false)
}.

Lemma PhaseInv_start (g : ext) (r : race) : start g = Some r → PhaseInv r.
Proof.
  unfold start, begin. destruct (getActiveTabId g); [|done]. intros [= <-].
  split; simpl.
  - done.
  - split; [done|]. by intros [|].
  - intros _. split; [done|]. intros entry Hen. by apply elem_of_nil in Hen.
Qed.

Lemma PhaseInv_step (r : race) (e : event) : PhaseInv r → PhaseInv (step r e).
Proof.
  intros [H1 H2 H3].
  destruct r as [g a before ntd handled fv fa lv la lis op lk pr rn st].
  simpl in *. destruct e as [tabId|tabId opener| | | | |ok]; simpl.
  - (* a tab is activated *)
    unfold tabActivatedHandler, clear_fast; simpl.
    destruct lis; [|by split]. destruct handled; [by split|]. simpl.
    case_bool_decide as Hin; [by split|].
    destruct fv; simpl; split; simpl; intuition congruence.
  - (* a lookup of the handler settles *)
    case_bool_decide as Hlk; [|by split].
    destruct ntd.
    2:{ destruct (H3 eq_refl) as [-> _]. by apply elem_of_nil in Hlk. }
    destruct opener as [o|]; [|by split]. unfold lookup_done, clear_long; simpl.
    destruct handled; simpl.
    { rewrite andb_false_r. by split. }
    rewrite andb_true_r. destruct (_ || _); [|by split].
    destruct lv; simpl; split; simpl; intuition congruence.
  - (* the operation returns *)
    destruct op; split; simpl; intuition congruence.
  - (* the operation throws *)
    destruct op; [|by split..]. unfold operation_threw; simpl.
    destruct fv, lv; simpl; split; simpl; intuition congruence.
  - (* the fast timer fires *)
    destruct fa; [|by split]. unfold fast_timer, clear_long; simpl.
    destruct ntd; [split; simpl; intuition congruence|]. destruct handled; simpl.
    { split; simpl; intuition congruence. }
    destruct lv; simpl; split; simpl; try intuition congruence.
    all: intros _; destruct (H3 eq_refl) as [-> Hpr]; split; [done|];
      intros entry Hen; apply elem_of_app in Hen as [Hen|Hen]; [by apply Hpr|];
      by apply list_elem_of_singleton in Hen.
  - (* the long timer fires *)
    destruct la; [|by split]. unfold long_timer, clear_fast; simpl.
    destruct handled; simpl.
    { split; simpl; intuition congruence. }
    destruct fv, ntd; simpl; split; simpl; try intuition congruence.
    all: intros _; destruct (H3 eq_refl) as [-> Hpr]; split; [done|];
      intros entry Hen; apply elem_of_app in Hen as [Hen|Hen]; [by apply Hpr|];
      by apply list_elem_of_singleton in Hen.
  - (* a processTabCore ends *)
    unfold core_done; simpl. destruct rn as [|[tab isNew] rest]; [by split|].
    split; simpl; intuition congruence.
Qed.

Lemma PhaseInv_run (evs : list event) : ∀ r, PhaseInv r → PhaseInv (run r evs).
Proof.
  induction evs as [|e evs IH]; intros r HI; simpl; [done|].
  apply IH, PhaseInv_step, HI.
Qed.

(** The two constants of an invocation. *)
Lemma step_constants (r : race) (e : event) :
  initialActiveTabId (step r e) = initialActiveTabId r
  ∧ tabsBeforeOperation (step r e) = tabsBeforeOperation r.
Proof.
  destruct r as [g a before ntd handled fv fa lv la lis op lk pr rn st].
  destruct e as [tabId|tabId opener| | | | |ok]; simpl;
    unfold tabActivatedHandler, lookup_done, operation_threw, fast_timer, long_timer,
      core_done, clear_fast, clear_long; simpl;
    repeat case_match; simpl; done.
Qed.

(** Only the activation of a tab that was not tracked before the
    operation marks a new tab as detected. *)
Lemma step_no_new_tab (r : race) (e : event) :
  newTabDetected r = false →
  (∀ t, e = EvActivated t → t ∈ tabsBeforeOperation r) →
  newTabDetected (step r e) = false.
Proof.
  destruct r as [g a before ntd handled fv fa lv la lis op lk pr rn st].
  simpl. intros -> He.
  destruct e as [tabId|tabId opener| | | | |ok]; simpl;
    unfold tabActivatedHandler, lookup_done, operation_threw, fast_timer, long_timer,
      core_done, clear_fast, clear_long; simpl.
  - specialize (He tabId eq_refl). rewrite bool_decide_eq_true_2 by done.
    repeat case_match; done.
  - repeat case_match; done.
  - repeat case_match; done.
  - repeat case_match; done.
  - repeat case_match; done.
  - repeat case_match; done.
  - repeat case_match; done.
Qed.

Lemma run_no_new_tab (evs : list event) :
  ∀ r, newTabDetected r = false →
  (∀ t, EvActivated t ∈ evs → t ∈ tabsBeforeOperation r) →
  newTabDetected (run r evs) = false
  ∧ initialActiveTabId (run r evs) = initialActiveTabId r.
Proof.
  induction evs as [|e evs IH]; intros r Hn Hev; simpl; [done|].
  destruct (step_constants r e) as [Ha Hb].
  destruct (IH (step r e)) as [H1 H2].
  - apply step_no_new_tab; [done|]. intros t ->. apply Hev. left.
  - intros t Ht. rewrite Hb. apply Hev. by right.
  - split; [done|]. by rewrite H2.
Qed.

(** The state after the operation threw with no lookup in flight. *)
Definition abandoned (r : race) : Prop :=
  operation r = Threw ∧ lookups r = [] ∧ listening r = false
  ∧ fastArmed r = false ∧ longArmed r = false.

Lemma abandoned_step (r : race) (e : event) :
  abandoned r → abandoned (step r e) ∧ processed (step r e) = processed r.
Proof.
  destruct r as [g a before ntd handled fv fa lv la lis op lk pr rn st].
  unfold abandoned. simpl. intros (-> & -> & -> & -> & ->).
  destruct e as [tabId|tabId opener| | | | |ok]; simpl; try done.
  unfold core_done. simpl. by destruct rn as [|[??]?].
Qed.

Lemma abandoned_run (evs : list event) :
  ∀ r, abandoned r → abandoned (run r evs) ∧ processed (run r evs) = processed r.
Proof.
  induction evs as [|e evs IH]; intros r Hr; simpl; [done|].
  destruct (abandoned_step r e Hr) as [Hs Hp].
  destruct (IH _ Hs) as [Hs' Hp']. split; [done|]. by rewrite Hp'.
Qed.

(** The calls of [reject] with the operation's error: one if the
    operation threw, none otherwise. *)
Definition rejected_once (r : race) : Prop :=
  List.length (settles r)
  = (List.length (tab_results (settles r))
     + match operation r with Threw => 1 | _ => 0 end)%nat.

Lemma rejected_once_step (r : race) (e : event) :
  rejected_once r → rejected_once (step r e).
Proof.
  destruct r as [g a before ntd handled fv fa lv la lis op lk pr rn st].
  unfold rejected_once. simpl. intros Hc.
  destruct e as [tabId|tabId opener| | | | |ok]; simpl;
    unfold tabActivatedHandler, lookup_done, operation_threw, fast_timer, long_timer,
      core_done, clear_fast, clear_long; simpl;
    repeat case_match; simpl; subst;
    rewrite ?tab_results_snoc, ?length_app; simpl; try done; lia.
Qed.

Lemma rejected_once_run (evs : list event) :
  ∀ r, rejected_once r → rejected_once (run r evs).
Proof.
  induction evs as [|e evs IH]; intros r Hr; simpl; [done|].
  apply IH, rejected_once_step, Hr.
Qed.

Lemma only_rejections (l : list settle) :
  tab_results l = [] → l = replicate (List.length l) OperationError.
Proof.
  induction l as [|[|tab ok] l IH]; simpl; [done| |done].
  intros Hl. f_equal. by apply IH.
Qed.

(** C2, as amended.  In every invocation that gets past its start, and
    for every order of events, at most one tab is passed to
    [processTabCore], and exactly one once [navigationHandled] is set;
    from then on no event passes another; at most one processing result
    reaches the promise; when the operation has returned and the long
    timer is no longer armed exactly one tab has been passed; and that
    tab is the initial tab, a newly activated tab that was not tracked
    before the operation, or the active tab as the long timer found it
    after a new tab was seen.  [reject] is called with the operation's
    error once if the operation threw and never otherwise; after a throw
    it is the only settlement as long as no tab has been committed; and
    no tab is committed after a throw unless the lookup of a newly
    activated tab was in flight at the throw. *)
Theorem C2_at_most_one_tab_processed (g : ext) (r0 : race) (evs : list event) :
  start g = Some r0 →
  let r := run r0 evs in
  (List.length (processed r) ≤ 1)%nat
  ∧ (navigationHandled r = true ↔ List.length (processed r) = 1%nat)
  ∧ (navigationHandled r = true → ∀ e, processed (step r e) = processed r)
  ∧ (List.length (tab_results (settles r)) ≤ 1)%nat
  ∧ (operation r = Returned → longArmed r = false → List.length (processed r) = 1%nat)
  ∧ (∀ tab isNewTab, (tab, isNewTab) ∈ processed r → origin r tab isNewTab)
  ∧ rejected_once r
  ∧ (operation r = Threw → processed r = [] → settles r = [OperationError])
  ∧ (operation r = Threw → lookups r = [] →
       ∀ evs', processed (run r evs') = processed r).
Proof.
  intros Hstart r.
  pose proof (RaceInv_run evs r0 (RaceInv_start g r0 Hstart)) as [H1 H2 H3 H4 H5 H6].
  pose proof (PhaseInv_run evs r0 (PhaseInv_start g r0 Hstart)) as [P1 P2 _].
  assert (Hrej : rejected_once r).
  { apply rejected_once_run. unfold start in Hstart.
    destruct (getActiveTabId g); [|done]. by injection Hstart as <-. }
  fold r in H1, H2, H3, H4, H5, H6, P1, P2.
  assert (Hle : (List.length (processed r) ≤ 1)%nat).
  { destruct (navigationHandled r); [rewrite H2 by done; lia | rewrite H1 by done; simpl; lia]. }
  split; [exact Hle|]. split.
  { split; [exact H2|]. intros Hlen. destruct (navigationHandled r); [done|].
    rewrite H1 in Hlen by done. done. }
  split; [intros Hh e; by apply committed_is_final|].
  split; [lia|]. split.
  { intros Hop Hla. destruct (navigationHandled r) eqn:Hh; [by apply H2|].
    rewrite H3 in Hla by done. done. }
  split; [exact H6|]. split; [exact Hrej|]. split.
  - intros Hop Hpr. unfold rejected_once in Hrej. rewrite Hop, Hpr in *. simpl in H4.
    assert (Hnone : tab_results (settles r) = []).
    { destruct (tab_results (settles r)); [done | simpl in H4; lia]. }
    rewrite Hnone in Hrej. simpl in Hrej.
    rewrite (only_rejections _ Hnone), Hrej. done.
  - intros Hop Hlk evs'.
    assert (Hab : abandoned r).
    { destruct P1 as (_ & Hf & _ & Hl); [congruence|].
      split_and!; try done. apply P2. by right. }
    by destruct (abandoned_run evs' r Hab) as [_ Hp].
Qed.

(** C2, witness: the operation returns, the fast timer fires and the
    initial tab is processed. *)
Lemma C2_at_most_one_tab_processed_witness :
  List.length (processed (run (begin 7 completed_tab)
                            [EvOperationReturned; EvFastTimer; EvLongTimer])) = 1%nat.
Proof.
  destruct (C2_at_most_one_tab_processed completed_tab (begin 7 completed_tab)
              [EvOperationReturned; EvFastTimer; EvLongTimer])
    as (_ & _ & _ & _ & H & _); [reflexivity|].
  apply H; reflexivity.
Defined.

(** X15.  When the operation throws while no [chrome.tabs.get] lookup of
    the activation handler is in flight, the invocation is over: whatever
    happens afterwards, no tab is passed to [processTabCore], the
    listener stays removed and no lookup is started. *)
Theorem nothing_is_committed_after_a_throw (g : ext) (r0 : race) (evs evs' : list event) :
  start g = Some r0 →
  let r := run r0 evs in
  operation r = Threw → lookups r = [] →
  processed (run r evs') = processed r
  ∧ listening (run r evs') = false
  ∧ lookups (run r evs') = [].
Proof.
  intros Hstart r Hop Hlk.
  pose proof (PhaseInv_run evs r0 (PhaseInv_start g r0 Hstart)) as [H1 H2 _].
  fold r in H1, H2.
  assert (Hab : abandoned r).
  { destruct H1 as (_ & Hf & _ & Hl); [congruence|].
    split_and!; try done. apply H2. by right. }
  destruct (abandoned_run evs' r Hab) as [(_ & Hl' & Hlis & _) Hp]. done.
Qed.

(** X15, witness: a new tab is activated, its lookup is rejected, and the
    operation throws; the timers and a further activation commit nothing. *)
Lemma nothing_is_committed_after_a_throw_witness :
  processed (run (run (begin 7 completed_tab)
                    [EvActivated 9; EvLookup 9 None; EvOperationThrew])
               [EvFastTimer; EvLongTimer; EvActivated 11; EvLookup 11 (Some None)])
  = processed (run (begin 7 completed_tab)
                 [EvActivated 9; EvLookup 9 None; EvOperationThrew]).
Proof.
  destruct (nothing_is_committed_after_a_throw completed_tab (begin 7 completed_tab)
              [EvActivated 9; EvLookup 9 None; EvOperationThrew]
              [EvFastTimer; EvLongTimer; EvActivated 11; EvLookup 11 (Some None)])
    as (Hp & _); [reflexivity..|].
  exact Hp.
Defined.

(** A lookup that is in flight when the operation throws can still
    commit its tab afterwards. *)
Example lookup_in_flight_commits_after_throw :
  (λ r, processed (run r [EvActivated 9; EvOperationThrew; EvLookup 9 (Some (Some 7))]))
    <$> start completed_tab
  = Some [(Some 9, true)].
Proof. vm_compute. reflexivity. Qed.

(** X16.  When every tab activated during the invocation was tracked
    before the operation, the only tab ever passed to [processTabCore]
    is the tab that was active at the start, as a tab that is not new. *)
Theorem only_the_initial_tab_without_a_new_tab (g : ext) (r0 : race) (evs : list event) :
  start g = Some r0 →
  (∀ t, EvActivated t ∈ evs → t ∈ openedTabIds g) →
  Forall (λ entry, entry = (getActiveTabId g, false)) (processed (run r0 evs)).
Proof.
  intros Hstart Hev.
  pose proof (PhaseInv_run evs r0 (PhaseInv_start g r0 Hstart)) as [_ _ H3].
  unfold start in Hstart. destruct (getActiveTabId g) as [a|] eqn:Ha; [|done].
  injection Hstart as <-.
  destruct (run_no_new_tab evs (begin a g)) as [Hn Hi]; [done|exact Hev|].
  destruct (H3 Hn) as [_ Hpr]. rewrite Hi in Hpr. simpl in Hpr.
  apply Forall_forall. intros entry Hen. by apply Hpr.
Qed.

(** X16, witness: tab 7 is activated again, the operation returns and
    the fast timer fires. *)
Lemma only_the_initial_tab_without_a_new_tab_witness :
  Forall (λ entry, entry = (getActiveTabId completed_tab, false))
    (processed (run (begin 7 completed_tab) [EvActivated 7; EvOperationReturned; EvFastTimer])).
Proof.
  apply (only_the_initial_tab_without_a_new_tab completed_tab).
  - reflexivity.
  - intros t Ht. apply elem_of_cons in Ht as [[= ->]|Ht]; [simpl; set_solver|].
    apply elem_of_cons in Ht as [Ht|Ht]; [done|].
    apply elem_of_cons in Ht as [Ht|Ht]; [done|]. by apply elem_of_nil in Ht.
Defined.

(** X17.  The activation listener is registered exactly until a tab is
    committed or the operation throws: in every reachable state it is
    removed if and only if [navigationHandled] is set or the operation
    threw. *)
Theorem listener_is_removed_exactly_on_commit_or_throw (g : ext) (r0 : race)
    (evs : list event) :
  start g = Some r0 →
  let r := run r0 evs in
  listening r = false ↔ (navigationHandled r = true ∨ operation r = Threw).
Proof.
  intros Hstart r.
  by pose proof (PhaseInv_run evs r0 (PhaseInv_start g r0 Hstart)) as [_ H2 _].
Qed.

(** X17, witness: after the fast timer committed the initial tab the
    listener is gone. *)
Lemma listener_is_removed_exactly_on_commit_or_throw_witness :
  listening (run (begin 7 completed_tab) [EvOperationReturned; EvFastTimer]) = false.
Proof.
  apply (listener_is_removed_exactly_on_commit_or_throw completed_tab (begin 7 completed_tab)
           [EvOperationReturned; EvFastTimer]); [reflexivity|].
  left. reflexivity.
Defined.

(** X18.  The two timers exist only after the operation has returned:
    while it is running, and after it threw, neither timer variable is
    set and neither timer can fire, so that a tab can only be committed
    by the lookup of a newly activated tab. *)
Theorem timers_exist_only_after_return (g : ext) (r0 : race) (evs : list event) (e : event) :
  start g = Some r0 →
  let r := run r0 evs in
  operation r ≠ Returned →
  (fastDetectionTimer r = false ∧ fastArmed r = false
   ∧ longWaitTimer r = false ∧ longArmed r = false)
  ∧ (processed (step r e) ≠ processed r →
     ∃ tabId opener, e = EvLookup tabId (Some opener) ∧ tabId ∈ lookups r
       ∧ processed (step r e) = [(Some tabId, true)]).
Proof.
  intros Hstart r Hop.
  pose proof (PhaseInv_run evs r0 (PhaseInv_start g r0 Hstart)) as [H1 _ _].
  pose proof (RaceInv_run evs r0 (RaceInv_start g r0 Hstart)) as [Hnone _ _ _ _ _].
  fold r in H1, Hnone. specialize (H1 Hop). split; [exact H1|].
  destruct H1 as (_ & Hfa & _ & Hla).
  destruct r as [g' a before ntd handled fv fa lv la lis op lk pr rn st].
  simpl in *. subst fa la.
  destruct e as [tabId|tabId opener| | | | |ok]; simpl.
  - unfold tabActivatedHandler, clear_fast. simpl. repeat case_match; simpl; done.
  - case_bool_decide as Hlk; [|done]. destruct opener as [o|]; [|done].
    unfold lookup_done, clear_long. simpl.
    destruct handled; simpl; [by rewrite andb_false_r|].
    rewrite andb_true_r. destruct (_ || _); [|done].
    rewrite (Hnone eq_refl). intros _. exists tabId, o.
    split_and!; try done. by destruct lv.
  - by destruct op.
  - destruct op; try done. unfold operation_threw. simpl. by destruct fv, lv.
  - done.
  - done.
  - unfold core_done. simpl. by destruct rn as [|[??]?].
Qed.

(** X18, witness: a new tab is activated while the operation is still
    running; the long timer is not armed. *)
Lemma timers_exist_only_after_return_witness :
  longArmed (run (begin 7 completed_tab) [EvActivated 9]) = false.
Proof.
  destruct (timers_exist_only_after_return completed_tab (begin 7 completed_tab)
              [EvActivated 9] (EvLookup 9 (Some (Some 7)))) as [(_ & _ & _ & H) _];
    [reflexivity|discriminate|].
  exact H.
Defined.

(** X25.  A click on two decimal integers: when both parts of the
    coordinate string are non-empty strings of decimal digits, the
    active tab exists and the debugger is attached to it, [performClick]
    starts the pointer animation and dispatches [mousePressed] and then
    [mouseReleased] at these coordinates on that tab, in this order; it
    fails only if one of the two dispatches fails, the second being
    skipped when the first fails; and it changes nothing else. *)
Theorem click_on_integer_coordinates (hst : click_host) (xs ys : string) (g : ext)
    (tabId : Z) :
  all_of is_digit (list_ascii_of_string xs) = true →
  all_of is_digit (list_ascii_of_string ys) = true →
  getActiveTabId g = Some tabId →
  debugTarget g = Some tabId →
  let r := performClick hst (xs +:+ "," +:+ ys) g in
  snd r = (if pressed_ok hst && released_ok hst then None else Some ClickFailed)
  ∧ hostCalls (fst r)
    = hostCalls g
      ++ [Visualize tabId (Num xs) (Num ys);
          DispatchMouseEvent tabId "mousePressed" (Num xs) (Num ys)]
      ++ (if pressed_ok hst
          then [DispatchMouseEvent tabId "mouseReleased" (Num xs) (Num ys)] else [])
  ∧ activeTabId (fst r) = activeTabId g
  ∧ openedTabIds (fst r) = openedTabIds g
  ∧ tabProcessingStates (fst r) = tabProcessingStates g
  ∧ debugTarget (fst r) = debugTarget g
  ∧ waitingForNewTab (fst r) = waitingForNewTab g.
Proof.
  intros Hx Hy Ha Hd r. unfold r, performClick. rewrite Ha.
  pose proof Hx as [_ Hx']%andb_true_iff. pose proof Hy as [_ Hy']%andb_true_iff.
  rewrite split_pair by by apply digits_have_no_comma.
  simpl. rewrite !Number_digits by done. simpl.
  rewrite bool_decide_eq_true_2 by done. simpl.
  destruct (pressed_ok hst), (released_ok hst); simpl;
    rewrite <- ?app_assoc; by split_and!.
Qed.

(** X25, witness: a click at "500,300" on the attached tab 7. *)
Lemma click_on_integer_coordinates_witness :
  hostCalls (fst (performClick obliging_host "500,300" completed_tab))
  = [Visualize 7 (Num "500") (Num "300");
     DispatchMouseEvent 7 "mousePressed" (Num "500") (Num "300");
     DispatchMouseEvent 7 "mouseReleased" (Num "500") (Num "300")].
Proof.
  pose proof (click_on_integer_coordinates obliging_host "500" "300" completed_tab 7
                eq_refl eq_refl eq_refl eq_refl) as (_ & Hc & _).
  exact Hc.
Defined.

End Coordinator.

(** * The batch executor ([handlers/batchCommandHandler.js]) *)
Module Batch.

Record parameters := {
  coordinate : option string;
  text : option string;
  key : option string;
  combination : option string;
  direction : option string;
  selector : option string;
  seconds : option Z
}.

Record operation := { name : string; params : option parameters }.

(** The calls [executeOperation] makes into the coordinator, all in
    batch mode: [waitForTabOperationComplete] for a click and a key
    press, [performSimpleOperation] for the others. *)
Inductive call :=
| Click (coordinate : string)
| Type_ (text : string)
| PressKey (key : string)
| KeyCombination (combination : string)
| Scroll (direction : string) (selector : option string)
| Wait (waitTime : Z).

(** What the batch loop reads of a step's result. *)
Record step_result := {
  newTabOpened : bool;
  newTabId : option Z;
  step_status : string
}.

(** The extension and the browser, as far as a batch touches them.  A
    coordinator call answers with a result or with the message of the
    error it throws; [tabs_get] answers with the tab's URL or with the
    message of its rejection; [capture] never throws. *)
Class BatchHost (W : Type) := {
  getActiveTabId : W → option Z;
  set_batch_marker : Z → W → W;      (* tabProcessingStates.set(id, "batch_processing") *)
  delete_state : Z → W → W;          (* tabProcessingStates.delete(id) *)
  is_tracked : Z → W → bool;         (* openedTabIds.has(id) *)
  coordinator : call → W → W * (step_result + string);
  sleep : Z → W → W;
  capture : Z → W → W * option string;
  tabs_get : Z → W → W * (string + string)
}.

(** An element of the [operations] array of the batch response. *)
Record entry := {
  e_operation : operation;
  e_status : string;
  e_result : option step_result;
  e_error : option string
}.

Definition success_entry (op : operation) (r : step_result) : entry :=
  {| e_operation := op; e_status := "success"; e_result := Some r; e_error := None |}.

Definition error_entry (op : operation) (msg : string) : entry :=
  {| e_operation := op; e_status := "error"; e_result := None; e_error := Some msg |}.

Record response := {
  status : string;
  command : string;
  requestId : option string;
  operations : option (list entry);
  screenshot : option string;
  currentUrl : option string;
  message : string;
  tabId : option Z
}.

Record batch_message := {
  b_requestId : option string;
  b_operations : option (list operation);
  b_interval_ms : option Z
}.

Section Executor.

Context {W : Type} `{BatchHost W}.

(** A required string parameter: [!parameters || !parameters.field]. *)
Definition required (field : parameters → option string) (p : option parameters)
  : option string :=
  match p with
  | Some ps => if truthy (field ps) then field ps else None
  | None => None
  end.

Definition executeOperation (op : operation) (intervalMs : Z) (w : W)
  : W * (step_result + string) :=
  let need (field : parameters → option string) (msg : string) (mk : string → call) :=
    match required field (params op) with
    | Some v => coordinator (mk v) w
    | None => (w, inr msg)
    end in
  if String.eqb (name op) "click" then
    need coordinate "Click operation requires 'coordinate' parameter" Click
  else if String.eqb (name op) "type" then
    need text "Type operation requires 'text' parameter" Type_
  else if String.eqb (name op) "press_key" then
    need key "Press key operation requires 'key' parameter" PressKey
  else if String.eqb (name op) "press_key_combo" then
    need combination "Key combination operation requires 'combination' parameter"
      KeyCombination
  else if String.eqb (name op) "scroll" then
    need direction "Scroll operation requires 'direction' parameter"
      (λ d, Scroll d (params op ≫= selector))
  else if String.eqb (name op) "wait" then
    let s := match params op ≫= seconds with
             | Some n => if n =? 0 then 1 else n
             | None => 1
             end in
    let waitTime := if s * 1000 =? 0 then intervalMs else s * 1000 in
    coordinator (Wait waitTime) w
  else (w, inr ("Unsupported operation: " +:+ name op)).

(** The state of the [for] loop when it ends. *)
Record loop_end := {
  world : W;
  currentTabId : Z;
  results : list entry;
  executed : list operation   (* the operations [executeOperation] was called on *)
}.

(** The [for] loop, from operation [i] on. *)
Fixpoint run_operations (ops : list operation) (intervalMs : Z)
    (cur : Z) (res : list entry) (done : list operation) (w : W) : loop_end :=
  match ops with
  | [] => {| world := w; currentTabId := cur; results := res; executed := done |}
  | op :: rest =>
    match executeOperation op intervalMs w with
    | (w1, inl r) =>
      let cur' := if newTabOpened r && truthy_id (newTabId r)
                  then default cur (newTabId r) else cur in
      let w2 := match rest with [] => w1 | _ => sleep intervalMs w1 end in
      run_operations rest intervalMs cur' (res ++ [success_entry op r]) (done ++ [op]) w2
    | (w1, inr msg) =>
      {| world := w1; currentTabId := cur;
         results := res ++ [error_entry op msg]; executed := done ++ [op] |}
    end
  end.

Definition error_response (b : batch_message) (msg : string) : response :=
  {| status := "error"; command := "batch"; requestId := b_requestId b;
     operations := None; screenshot := None; currentUrl := None;
     message := msg; tabId := None |}.

Definition interval_of (b : batch_message) : Z :=
  match b_interval_ms b with
  | Some n => if n =? 0 then 100 else n
  | None => 100
  end.

(** The state entries of the initial tab and of the final tab are
    deleted after the loop. *)
Definition reset_states (targetTabId : Z) (e : loop_end) : W :=
  let w1 := delete_state targetTabId (world e) in
  if currentTabId e =? targetTabId then w1 else delete_state (currentTabId e) w1.

(** [handleBatchCommand]: the final world and the response sent. *)
Definition handleBatchCommand (b : batch_message) (w : W) : W * response :=
  let ops := default [] (b_operations b) in
  let intervalMs := interval_of b in
  match ops with
  | [] => (w, error_response b "No operations provided for batch command")
  | _ =>
    match getActiveTabId w with
    | None => (w, error_response b "无可用的标签页执行批处理命令")
    | Some targetTabId =>
      let e := run_operations ops intervalMs targetTabId [] [] (set_batch_marker targetTabId w) in
      let w2 := reset_states targetTabId e in
      if negb (is_tracked (currentTabId e) w2) then
        (w2, {| status := "success"; command := "batch"; requestId := b_requestId b;
                operations := Some (results e); screenshot := None; currentUrl := None;
                message := "Batch operations completed, but tab no longer exists";
                tabId := None |})
      else
        let (w3, shot) := capture (currentTabId e) w2 in
        match tabs_get (currentTabId e) w3 with
        | (w4, inl url) =>
          (w4, {| status := "success"; command := "batch"; requestId := b_requestId b;
                  operations := Some (results e); screenshot := shot;
                  currentUrl := Some url;
                  message := "Executed " +:+ pretty (List.length ops) +:+ " operations in batch";
                  tabId := Some (currentTabId e) |})
        | (w4, inr msg) =>
          (delete_state targetTabId w4, error_response b msg)
        end
    end
  end.

(** The operations [pre] all succeed, one after the other and each
    followed by the pause, from the world [w]: the world, the current tab
    and the entries they leave. *)
Fixpoint all_succeed (pre : list operation) (intervalMs : Z) (cur : Z) (w : W)
  : option (W * Z * list entry) :=
  match pre with
  | [] => Some (w, cur, [])
  | op :: rest =>
    match executeOperation op intervalMs w with
    | (w1, inl r) =>
      let cur' := if newTabOpened r && truthy_id (newTabId r)
                  then default cur (newTabId r) else cur in
      match all_succeed rest intervalMs cur' (sleep intervalMs w1) with
      | Some (w', c', es) => Some (w', c', success_entry op r :: es)
      | None => None
      end
    | (_, inr _) => None
    end
  end.

(** The world the handler ends in when the final tab is no longer
    tracked or its lookup succeeds: after the loop the state entries are
    reset and, for a tab that is still tracked, the screenshot is taken
    and the tab is looked up. *)
Definition finish (targetTabId : Z) (e : loop_end) : W :=
  let w2 := reset_states targetTabId e in
  if is_tracked (currentTabId e) w2
  then fst (tabs_get (currentTabId e) (fst (capture (currentTabId e) w2)))
  else w2.

(** The final tab can be looked up, when the handler looks it up. *)
Definition final_lookup_succeeds (targetTabId : Z) (e : loop_end) : Prop :=
  let w2 := reset_states targetTabId e in
  is_tracked (currentTabId e) w2 = true →
  ∃ url, snd (tabs_get (currentTabId e) (fst (capture (currentTabId e) w2))) = inl url.

Lemma all_succeed_entries (pre : list operation) (intervalMs : Z) :
  ∀ cur w w1 cur1 rs,
  all_succeed pre intervalMs cur w = Some (w1, cur1, rs) →
  Forall2 (λ op en, e_operation en = op ∧ e_status en = "success" ∧ e_error en = None) pre rs.
Proof.
  induction pre as [|op pre IH]; intros cur w w1 cur1 rs; simpl.
  - intros [= <- <- <-]. constructor.
  - destruct (executeOperation op intervalMs w) as [w' [r|msg]]; [|done].
    destruct (all_succeed pre intervalMs _ _) as [[[w'' c''] es]|] eqn:E; [|done].
    intros [= <- <- <-]. constructor; [done|]. by eapply IH.
Qed.

(** The loop on a list whose first failing operation is [op]. *)
Lemma run_operations_stops (pre : list operation) (op : operation) (post : list operation)
    (intervalMs : Z) :
  ∀ cur res done w w1 cur1 rs w2 msg,
  all_succeed pre intervalMs cur w = Some (w1, cur1, rs) →
  executeOperation op intervalMs w1 = (w2, inr msg) →
  run_operations (pre ++ op :: post) intervalMs cur res done w
  = {| world := w2; currentTabId := cur1;
       results := res ++ rs ++ [error_entry op msg];
       executed := done ++ pre ++ [op] |}.
Proof.
  induction pre as [|o pre IH]; intros cur res done w w1 cur1 rs w2 msg; simpl.
  - intros [= <- <- <-] ->. done.
  - destruct (executeOperation o intervalMs w) as [w' [r|m]]; [|done].
    destruct (all_succeed pre intervalMs _ _) as [[[w'' c''] es]|] eqn:E; [|done].
    intros [= <- <- <-] Hop.
    replace (match pre ++ op :: post with [] => w' | _ => sleep intervalMs w' end)
      with (sleep intervalMs w') by (by destruct pre).
    rewrite (IH _ _ _ _ _ _ _ _ _ E Hop). by rewrite <- !app_assoc.
Qed.

Lemma handleBatchCommand_runs (b : batch_message) (w : W) (ops : list operation) (t : Z) :
  b_operations b = Some ops → ops ≠ [] → getActiveTabId w = Some t →
  let e := run_operations ops (interval_of b) t [] [] (set_batch_marker t w) in
  (operations (snd (handleBatchCommand b w)) = Some (results e)
   ∧ status (snd (handleBatchCommand b w)) = "success")
  ∨ (operations (snd (handleBatchCommand b w)) = None
     ∧ status (snd (handleBatchCommand b w)) = "error"
     ∧ is_tracked (currentTabId e) (reset_states t e) = true
     ∧ ∃ msg, snd (tabs_get (currentTabId e)
                     (fst (capture (currentTabId e) (reset_states t e)))) = inr msg).
Proof.
  intros Hops Hne Ht. unfold handleBatchCommand. rewrite Hops, Ht. simpl.
  destruct ops as [|o ops]; [done|].
  set (e := run_operations _ _ _ _ _ _).
  destruct (is_tracked (currentTabId e) (reset_states t e)) eqn:Htr; simpl; [|by left].
  destruct (capture (currentTabId e) (reset_states t e)) as [w3 shot]. simpl.
  destruct (tabs_get (currentTabId e) w3) as [w4 [url|msg]]; simpl; [by left|].
  right. split_and!; try done. by exists msg.
Qed.

(** The two ways the handler can end after the loop. *)
Lemma handleBatchCommand_ends (b : batch_message) (w : W) (ops : list operation) (t : Z) :
  b_operations b = Some ops → ops ≠ [] → getActiveTabId w = Some t →
  let e := run_operations ops (interval_of b) t [] [] (set_batch_marker t w) in
  (final_lookup_succeeds t e →
     operations (snd (handleBatchCommand b w)) = Some (results e)
     ∧ fst (handleBatchCommand b w) = finish t e)
  ∧ (∀ m, is_tracked (currentTabId e) (reset_states t e) = true →
       snd (tabs_get (currentTabId e) (fst (capture (currentTabId e) (reset_states t e))))
       = inr m →
       operations (snd (handleBatchCommand b w)) = None
       ∧ status (snd (handleBatchCommand b w)) = "error"
       ∧ message (snd (handleBatchCommand b w)) = m).
Proof.
  intros Hops Hne Ht e. unfold handleBatchCommand, final_lookup_succeeds, finish.
  rewrite Hops, Ht. simpl. destruct ops as [|o ops]; [done|]. fold e.
  destruct (is_tracked (currentTabId e) (reset_states t e)) eqn:Htr; simpl.
  2:{ split; [done|]. by intros m Hm. }
  destruct (capture (currentTabId e) (reset_states t e)) as [w3 shot]. simpl.
  destruct (tabs_get (currentTabId e) w3) as [w4 [url|msg]]; simpl.
  - split; [done|]. by intros m _ Hm.
  - split.
    + intros Hf. destruct (Hf eq_refl) as [url Hurl]. done.
    + intros m _ [= <-]. done.
Qed.

End Executor.

(** A name that is none of the six operation names is refused without
    touching the world. *)
Lemma unknown_operation_fails {W : Type} `{BatchHost W} (op : operation) (i : Z) (w : W) :
  name op ∉ ["click"; "type"; "press_key"; "press_key_combo"; "scroll"; "wait"] →
  executeOperation op i w = (w, inr ("Unsupported operation: " +:+ name op)).
Proof.
  intros Hn. unfold executeOperation.
  repeat match goal with
         | |- context [String.eqb (name op) ?s] =>
           destruct (String.eqb_spec (name op) s) as [E|_];
             [exfalso; apply Hn; rewrite E; set_solver|]
         end.
  done.
Qed.

(** ** An example host: every coordinator call succeeds and is logged *)

#[global] Instance logging_host : BatchHost (list call) := {
  getActiveTabId _ := Some 1;
  set_batch_marker _ w := w;
  delete_state _ w := w;
  is_tracked _ _ := true;
  coordinator c w :=
    (w ++ [c], inl {| newTabOpened := false; newTabId := None;
                      step_status := match c with Click _ | PressKey _ => "success"
                                                 | _ => "ack" end |});
  sleep _ w := w;
  capture _ w := (w, Some "data:image/jpeg;base64,");
  tabs_get _ w := (w, inl "https://example.com/")
}.

Definition no_parameters : parameters :=
  {| coordinate := None; text := None; key := None; combination := None;
     direction := None; selector := None; seconds := None |}.

Definition click_op : operation :=
  {| name := "click";
     params := Some {| coordinate := Some "500,300"; text := None; key := None;
                       combination := None; direction := None; selector := None;
                       seconds := None |} |}.

Definition type_op : operation :=
  {| name := "type";
     params := Some {| coordinate := None; text := Some "hi"; key := None;
                       combination := None; direction := None; selector := None;
                       seconds := None |} |}.

Definition bad_op : operation := {| name := "badOp"; params := None |}.

Definition wait_op : operation := {| name := "wait"; params := Some no_parameters |}.

Definition scenario : batch_message :=
  {| b_requestId := Some "req-4";
     b_operations := Some [click_op; type_op; bad_op; wait_op];
     b_interval_ms := None |}.

Definition scenario_entries : list entry :=
  [success_entry click_op {| newTabOpened := false; newTabId := None; step_status := "success" |};
   success_entry type_op {| newTabOpened := false; newTabId := None; step_status := "ack" |}].

(** A host like the logging host on which the lookup of the final tab
    is rejected. *)
Record vanishing := { seen : list call }.

#[global] Instance vanishing_host : BatchHost vanishing := {
  getActiveTabId _ := Some 1;
  set_batch_marker _ w := w;
  delete_state _ w := w;
  is_tracked _ _ := true;
  coordinator c w :=
    ({| seen := seen w ++ [c] |},
     inl {| newTabOpened := false; newTabId := None;
            step_status := match c with Click _ | PressKey _ => "success"
                                       | _ => "ack" end |});
  sleep _ w := w;
  capture _ w := (w, Some "data:image/jpeg;base64,");
  tabs_get _ w := (w, inr "No tab with id: 1.")
}.

(** C8, counterexample.  In the batch click, type, badOp, wait the click
    and the type are carried out and the third operation fails; the
    lookup of the final tab is then rejected, and the response sent is
    an error response without any list of results. *)
Lemma C8_no_list_when_the_final_lookup_fails :
  (λ x, (seen (fst x), status (snd x), operations (snd x), message (snd x)))
    (handleBatchCommand scenario {| seen := [] |})
  = ([Click "500,300"; Type_ "hi"], "error", None, "No tab with id: 1.").
Proof. vm_compute. reflexivity. Qed.

(** C8, as amended.  If the operations before [op] all succeed and [op]
    fails, then [executeOperation] is called on these operations and on
    [op] and on no later one; the results are the success entries of the
    preceding operations, in order, followed by the error entry of [op];
    the world the loop ends in is the one the failing step left, which
    was reached through the preceding steps: nothing is undone.  When
    the final tab is no longer tracked or its lookup succeeds, the
    response of the handler carries exactly this list, and the handler
    ends in the world reached from the one the failing step left by the
    state reset, the screenshot and the lookup alone.  When the lookup
    of the final tab is rejected, the response is an error response with
    the message of the rejection and without a list. *)
Theorem C8_batch_stops_at_first_failure {W : Type} `{BatchHost W}
    (b : batch_message) (w : W) (t : Z)
    (pre : list operation) (op : operation) (post : list operation)
    (w1 : W) (cur1 : Z) (rs : list entry) (w2 : W) (msg : string) :
  b_operations b = Some (pre ++ op :: post) →
  getActiveTabId w = Some t →
  all_succeed pre (interval_of b) t (set_batch_marker t w) = Some (w1, cur1, rs) →
  executeOperation op (interval_of b) w1 = (w2, inr msg) →
  let e := run_operations (pre ++ op :: post) (interval_of b) t [] []
             (set_batch_marker t w) in
  executed e = pre ++ [op]
  ∧ results e = rs ++ [error_entry op msg]
  ∧ Forall2 (λ o en, e_operation en = o ∧ e_status en = "success" ∧ e_error en = None) pre rs
  ∧ world e = w2
  ∧ currentTabId e = cur1
  ∧ (final_lookup_succeeds t e →
       operations (snd (handleBatchCommand b w)) = Some (rs ++ [error_entry op msg])
       ∧ fst (handleBatchCommand b w) = finish t e)
  ∧ (∀ m, is_tracked cur1 (reset_states t e) = true →
       snd (tabs_get cur1 (fst (capture cur1 (reset_states t e)))) = inr m →
       operations (snd (handleBatchCommand b w)) = None
       ∧ status (snd (handleBatchCommand b w)) = "error"
       ∧ message (snd (handleBatchCommand b w)) = m).
Proof.
  intros Hops Ht Hpre Hop e.
  assert (He : e = {| world := w2; currentTabId := cur1;
                      results := rs ++ [error_entry op msg];
                      executed := pre ++ [op] |}).
  { unfold e. by rewrite (run_operations_stops pre op post _ _ _ _ _ _ _ _ _ _ Hpre Hop). }
  destruct (handleBatchCommand_ends b w (pre ++ op :: post) t Hops) as [Hok Herr];
    [by destruct pre | done |].
  fold e in Hok, Herr.
  split_and!; try (rewrite He; done).
  - by eapply all_succeed_entries.
  - intros Hf. destruct (Hok Hf) as [Hl Hw]. split; [|exact Hw].
    rewrite Hl, He. done.
  - intros m Htr Hm. apply Herr.
    + replace (currentTabId e) with cur1 by (by rewrite He). exact Htr.
    + replace (currentTabId e) with cur1 by (by rewrite He). exact Hm.
Qed.

(** C8, witness: click, type, an unknown operation, then a wait that is
    never run: the handler ends in the world that the click and the
    type left, and its response lists the two successes and the error. *)
Lemma C8_batch_stops_at_first_failure_witness :
  fst (handleBatchCommand scenario ([] : list call)) = [Click "500,300"; Type_ "hi"]
  ∧ operations (snd (handleBatchCommand scenario ([] : list call)))
    = Some (scenario_entries ++ [error_entry bad_op "Unsupported operation: badOp"]).
Proof.
  assert (Hfinal : final_lookup_succeeds 1
            (run_operations [click_op; type_op; bad_op; wait_op] 100 1 [] [] ([] : list call))).
  { intros _. by exists "https://example.com/". }
  pose proof (C8_batch_stops_at_first_failure scenario [] 1 [click_op; type_op] bad_op
                [wait_op] [Click "500,300"; Type_ "hi"] 1 scenario_entries
                [Click "500,300"; Type_ "hi"] "Unsupported operation: badOp"
                eq_refl eq_refl eq_refl eq_refl) as (_ & _ & _ & _ & _ & Hok & _).
  destruct (Hok Hfinal) as [Hl Hw]. split; [|exact Hl].
  rewrite Hw. reflexivity.
Defined.

(** C10.  When a step of a non-empty batch fails and the final tab can
    be looked up (or is no longer tracked), the response sent for the
    batch has the top-level status "success"; the failure appears only as
    the last entry of its operations array, whose status is "error". *)
Theorem C10_failed_step_reports_success {W : Type} `{BatchHost W}
    (b : batch_message) (w : W) (t : Z)
    (pre : list operation) (op : operation) (post : list operation)
    (w1 : W) (cur1 : Z) (rs : list entry) (w2 : W) (msg : string) :
  b_operations b = Some (pre ++ op :: post) →
  getActiveTabId w = Some t →
  all_succeed pre (interval_of b) t (set_batch_marker t w) = Some (w1, cur1, rs) →
  executeOperation op (interval_of b) w1 = (w2, inr msg) →
  final_lookup_succeeds t
    (run_operations (pre ++ op :: post) (interval_of b) t [] [] (set_batch_marker t w)) →
  status (snd (handleBatchCommand b w)) = "success"
  ∧ command (snd (handleBatchCommand b w)) = "batch"
  ∧ operations (snd (handleBatchCommand b w)) = Some (rs ++ [error_entry op msg])
  ∧ e_status (error_entry op msg) = "error"
  ∧ Forall (λ en, e_status en = "success") rs.
Proof.
  intros Hops Ht Hpre Hop Hfinal.
  pose proof (run_operations_stops pre op post _ t [] [] _ _ _ _ _ _ Hpre Hop) as He.
  simpl in He.
  destruct (handleBatchCommand_runs b w (pre ++ op :: post) t Hops)
    as [[Hr Hs]|(_ & _ & Htr & (m & Hm))]; [by destruct pre | done | |].
  - rewrite He in Hr. simpl in Hr. split_and!; try done.
    + unfold handleBatchCommand. rewrite Hops, Ht. simpl.
      destruct pre; simpl; repeat case_match; done.
    + apply all_succeed_entries in Hpre. clear -Hpre.
      induction Hpre as [|o en pre rs (_ & Hst & _) _ IH]; constructor; done.
  - destruct (Hfinal Htr) as (url & Hurl). congruence.
Qed.

(** C10, witness: the response to the batch click, type, badOp, wait. *)
Lemma C10_failed_step_reports_success_witness :
  status (snd (handleBatchCommand scenario ([] : list call))) = "success".
Proof.
  assert (Hfinal : final_lookup_succeeds 1
            (run_operations [click_op; type_op; bad_op; wait_op] 100 1 [] [] ([] : list call))).
  { intros _. by exists "https://example.com/". }
  pose proof (C10_failed_step_reports_success scenario [] 1 [click_op; type_op] bad_op
                [wait_op] [Click "500,300"; Type_ "hi"] 1 scenario_entries
                [Click "500,300"; Type_ "hi"] "Unsupported operation: badOp"
                eq_refl eq_refl eq_refl eq_refl Hfinal) as (Hs & _).
  exact Hs.
Defined.

(** The whole response of the example. *)
Example scenario_response :
  (λ r, (status r, e_status <$> default [] (operations r), message r))
    (snd (handleBatchCommand scenario ([] : list call)))
  = ("success", ["success"; "success"; "error"], "Executed 4 operations in batch").
Proof. vm_compute. reflexivity. Qed.

(** ** The shape of the loop's results and of the response *)

Section Shape.

Context {W : Type} `{BatchHost W}.

Definition succeeded (en : entry) : Prop := e_status en = "success" ∧ e_error en = None.

(** The loop from any point: it runs a prefix of the operations left,
    adds one entry per operation run, and only the last entry added can
    be an error entry. *)
Lemma run_operations_shape (ops : list operation) (intervalMs : Z) :
  ∀ cur res done w,
  ∃ ex rs,
    executed (run_operations ops intervalMs cur res done w) = done ++ ex
    ∧ results (run_operations ops intervalMs cur res done w) = res ++ rs
    ∧ ex `prefix_of` ops
    ∧ e_operation <$> rs = ex
    ∧ ((ex = ops ∧ Forall succeeded rs)
       ∨ (∃ rs' op msg, rs = rs' ++ [error_entry op msg] ∧ Forall succeeded rs')).
Proof.
  induction ops as [|op ops IH]; intros cur res done w; simpl.
  - exists [], []. rewrite !app_nil_r. split_and!; try done. by left.
  - destruct (executeOperation op intervalMs w) as [w1 [r|msg]]; simpl.
    + edestruct IH as (ex & rs & He & Hr & Hp & Hm & Hs).
      exists (op :: ex), (success_entry op r :: rs).
      rewrite He, Hr, <- !app_assoc. simpl. split_and!; try done.
      * by apply prefix_cons.
      * by rewrite <- Hm.
      * destruct Hs as [[-> Hs]|(rs' & o & m & -> & Hs)].
        -- left. split; [done|]. by constructor.
        -- right. exists (success_entry op r :: rs'), o, m. split; [done|]. by constructor.
    + exists [op], [error_entry op msg]. split_and!; try done.
      * apply prefix_cons, prefix_nil.
      * right. by exists [], op, msg.
Qed.

(** The entries of a loop on a non-empty list. *)
Lemma batch_results_shape_aux (ops : list operation) (intervalMs : Z) (cur : Z) (w : W) :
  ops ≠ [] →
  results (run_operations ops intervalMs cur [] [] w) ≠ []
  ∧ (e_operation <$> results (run_operations ops intervalMs cur [] [] w)) `prefix_of` ops.
Proof.
  intros Hne.
  destruct (run_operations_shape ops intervalMs cur [] [] w)
    as (ex & rs & He & Hr & Hp & Hm & Hs).
  simpl in Hr. rewrite Hr, Hm. split; [|done].
  destruct Hs as [[-> _]|(rs' & o & m & -> & _)].
  - intros ->. done.
  - by destruct rs'.
Qed.

End Shape.

(** X19.  Whatever the operations and the host do, the loop calls
    [executeOperation] on a prefix of the operations, in order; the
    results hold one entry per operation run, for that operation; every
    operation was run and every entry is a success entry, or the last
    entry is an error entry and the entries before it are success
    entries. *)
Theorem batch_results_follow_the_operations {W : Type} `{BatchHost W}
    (ops : list operation) (intervalMs : Z) (cur : Z) (w : W) :
  let e := run_operations ops intervalMs cur [] [] w in
  executed e `prefix_of` ops
  ∧ e_operation <$> results e = executed e
  ∧ ((executed e = ops ∧ Forall succeeded (results e))
     ∨ (∃ rs op msg, results e = rs ++ [error_entry op msg] ∧ Forall succeeded rs)).
Proof.
  intros e.
  destruct (run_operations_shape ops intervalMs cur [] [] w)
    as (ex & rs & He & Hr & Hp & Hm & Hs).
  fold e in He, Hr. simpl in He, Hr. rewrite He, Hr. split_and!; done.
Qed.

(** X20.  An operation of one of the five kinds that take a required
    parameter fails, without a call into the coordinator and without
    touching the world, when its parameters are missing or the required
    one is missing or the empty string. *)
Theorem missing_parameter_fails_before_any_call {W : Type} `{BatchHost W}
    (op : operation) (intervalMs : Z) (w : W) :
  (name op = "click" ∧ truthy (params op ≫= coordinate) = false)
  ∨ (name op = "type" ∧ truthy (params op ≫= text) = false)
  ∨ (name op = "press_key" ∧ truthy (params op ≫= key) = false)
  ∨ (name op = "press_key_combo" ∧ truthy (params op ≫= combination) = false)
  ∨ (name op = "scroll" ∧ truthy (params op ≫= direction) = false) →
  ∃ msg, executeOperation op intervalMs w = (w, inr msg).
Proof.
  unfold executeOperation, required.
  intros [[-> Hp]|[[-> Hp]|[[-> Hp]|[[-> Hp]|[-> Hp]]]]]; simpl;
    destruct (params op) as [ps|]; simpl in *; rewrite ?Hp; by eexists.
Qed.

(** X20, witness: a [type] operation whose text is the empty string. *)
Lemma missing_parameter_fails_before_any_call_witness :
  ∃ msg, executeOperation
           {| name := "type";
              params := Some {| coordinate := None; text := Some ""; key := None;
                                combination := None; direction := None; selector := None;
                                seconds := None |} |} 100 ([] : list call)
         = ([], inr msg).
Proof.
  apply missing_parameter_fails_before_any_call. right. left. by split.
Defined.

(** X21.  Every batch message is answered by one response for the
    command [batch] with the request id of the message.  A response with
    status [error] carries no operations, screenshot, URL or tab id.  A
    response with status [success] carries a non-empty list of entries,
    one for each operation of a prefix of the message's operations, in
    order; and it names a tab only together with that tab's URL. *)
Theorem batch_response_shape {W : Type} `{BatchHost W} (b : batch_message) (w : W) :
  let r := snd (handleBatchCommand b w) in
  command r = "batch" ∧ requestId r = b_requestId b
  ∧ ((status r = "error" ∧ operations r = None ∧ screenshot r = None
      ∧ currentUrl r = None ∧ tabId r = None)
     ∨ (status r = "success"
        ∧ (∃ l, operations r = Some l ∧ l ≠ []
             ∧ (e_operation <$> l) `prefix_of` default [] (b_operations b))
        ∧ (is_Some (tabId r) → is_Some (currentUrl r)))).
Proof.
  intros r. unfold r, handleBatchCommand.
  destruct (default [] (b_operations b)) as [|o ops] eqn:Hops.
  { simpl. split_and!; try done. by left. }
  cbv zeta iota.
  destruct (getActiveTabId w) as [t|]; [|simpl; split_and!; try done; by left].
  set (e := run_operations (o :: ops) _ _ _ _ _).
  assert (Hl : results e ≠ [] ∧ (e_operation <$> results e) `prefix_of` (o :: ops)).
  { destruct (batch_results_shape_aux (o :: ops) (interval_of b) t (set_batch_marker t w))
      as [Hne Hp]; [done|]. done. }
  destruct Hl as [Hne Hp].
  destruct (is_tracked (currentTabId e) (reset_states t e)); simpl.
  - destruct (capture (currentTabId e) (reset_states t e)) as [w3 shot].
    destruct (tabs_get (currentTabId e) w3) as [w4 [url|msg]]; simpl.
    + split_and!; try done. right. split_and!; try done. by exists (results e).
    + split_and!; try done. by left.
  - split_and!; try done. right. split_and!; try done. by exists (results e).
Qed.

End Batch.
